(** * The upload page of the crack classifier: intake, preview, submission

    A shallow embedding of [src/frontend/src/routes/+page.svelte] (the
    component script) and of the [load] function of the result route.

    The component's module-level [let] variables become one record,
    [World], which also carries the browser's blob URL store, the only
    resource the script allocates.  Every function of the script is a
    computation in a small monad [M] with state, exceptions and an emitted
    list of effects, so that statements about "no network call" or "revoked
    before replaced" are statements about that list.  What the platform
    answers (the outcome of [fetch], of [res.json()], of [goto], the URL
    minted by [URL.createObjectURL]) is read from an [Env] record.

    [submit] is an async function.  Its two awaited promises are taken as
    settled, with the outcome [Env] gives, and the function is run from its
    first statement to the end of its [finally] block; "when [submit]
    returns" means when its promise settles.  The page while a submission
    is in flight, with other handlers running between the awaits, is
    [Page]: there [submit] is cut at its awaits and [play] runs the pieces
    in any order the event loop allows. *)

From Stdlib Require Import List String Ascii Bool NArith ZArith Lia.
From Stdlib Require Import DecimalString.
From Stdlib Require DecimalFacts DecimalPos DecimalN.
Import ListNotations.

Local Open Scope string_scope.

(** ** Strings

    A JavaScript string is modelled by its UTF-8 bytes. *)

(** [needle] occurs in [hay] ([hay.includes(needle)]). *)
Fixpoint String_includes (needle hay : string) : bool :=
  String.prefix needle hay ||
  match hay with
  | EmptyString => false
  | String _ rest => String_includes needle rest
  end.

(** [xs.includes(x)] on an array of strings. *)
Definition Array_includes (xs : list string) (x : string) : bool :=
  existsb (String.eqb x) xs.

(** Decimal digits of a non-negative integer, as [String(n)] and a template
    literal print it. *)
Definition N_toString (n : N) : string :=
  NilZero.string_of_uint (N.to_uint n).

(** ** Data *)

(** The attributes of a DOM [File] the script reads. *)
Record File : Type := mkFile
  { name : string;
    type : string;
    size : N }.

(** A thrown value, seen through the only thing the handler reads,
    [e?.message]: [None] when [e] is nullish or has no message. *)
Record Exn : Type := mkExn { message : option string }.

Definition Error (msg : string) : Exn := mkExn (Some msg).

(** Entries of a [FormData]: field name and file. *)
Definition FormData : Type := list (string * File).

(** What the script does to the outside world, and its assignments to the
    component's variables, in program order. *)
Inductive Effect : Type :=
| SetError (msg : string)
| SetFile (f : option File)
| SetPreviewUrl (u : option string)
| SetUploading (b : bool)
| SetDragActive (b : bool)
| RevokeObjectURL (u : string)
| CreateObjectURL (f : File) (u : string)
| ClickInput
| PreventDefault
| StopPropagation
| Fetch (url method : string) (body : FormData)
| ReadJson
| Goto (url : string).

(** The component's variables (script lines 5-11) and the blob URL store of
    the page. *)
Record World : Type := mkWorld
  { file : option File;
    previewUrl : option string;
    error : string;
    uploading : bool;
    dragActive : bool;
    fileInput : bool;          (* is the <input> bound *)
    blobStore : list string }. (* object URLs created and not yet revoked *)

Definition MAX_SIZE_MB : N := 10%N.
Definition ACCEPT : list string := ["image/jpeg"; "image/png"; "image/webp"].

(** ** JavaScript numbers and their printed form

    A number is kept in the form [Number::toString] is defined on: a finite
    non-zero number is [± s × 10^(n-k)] where [k] is the number of decimal
    digits of [s].  Rounding to binary64 happens below this model: the digits
    are those of the number's shortest round-trip form. *)

Inductive JsNumber : Type :=
| NaN
| Infinity (neg : bool)
| Zero (neg : bool)
| Finite (neg : bool) (s : positive) (n : Z).

Definition zeros (n : Z) : string :=
  string_of_list_ascii (repeat "0"%char (Z.to_nat n)).

Definition slice (from count : Z) (s : string) : string :=
  String.substring (Z.to_nat from) (Z.to_nat count) s.

(** [Number::toString] for a positive finite number, radix 10
    (ECMA-262, steps 5 to 10). *)
Definition finite_toString (s : positive) (n : Z) : string :=
  let d := N_toString (Npos s) in
  let k := Z.of_nat (String.length d) in
  if ((k <=? n) && (n <=? 21))%Z then d ++ zeros (n - k)
  else if ((0 <? n) && (n <=? 21))%Z then slice 0 n d ++ "." ++ slice n (k - n) d
  else if ((-6 <? n) && (n <=? 0))%Z then "0." ++ zeros (- n) ++ d
  else
    let e := (n - 1)%Z in
    let es := (if (e <? 0)%Z then "-" else "+") ++ N_toString (Z.abs_N e) in
    if (k =? 1)%Z then d ++ "e" ++ es
    else slice 0 1 d ++ "." ++ slice 1 (k - 1) d ++ "e" ++ es.

Definition Number_toString (x : JsNumber) : string :=
  match x with
  | NaN => "NaN"
  | Zero _ => "0"
  | Infinity neg => (if neg then "-" else "") ++ "Infinity"
  | Finite neg s n => (if neg then "-" else "") ++ finite_toString s n
  end.

(** *** parseFloat *)

Definition is_digit (c : ascii) : bool :=
  let n := N_of_ascii c in ((48 <=? n) && (n <=? 57))%N.

Fixpoint take_digits (s : string) : string * string :=
  match s with
  | String c rest =>
      if is_digit c then let (d, r) := take_digits rest in (String c d, r)
      else (EmptyString, s)
  | EmptyString => (EmptyString, EmptyString)
  end.

Fixpoint N_of_digits_acc (s : string) (acc : N) : N :=
  match s with
  | String c rest => N_of_digits_acc rest (acc * 10 + (N_of_ascii c - 48))%N
  | EmptyString => acc
  end.

Definition N_of_digits (s : string) : N := N_of_digits_acc s 0%N.

(** UTF-8 encodings of ECMAScript's WhiteSpace and LineTerminator code
    points: TAB, LF, VT, FF, CR, SP, U+00A0, U+1680, U+2000-200A, U+2028,
    U+2029, U+202F, U+205F, U+3000, U+FEFF. *)
Definition white_space : list string :=
  map string_of_list_ascii
    (map (map ascii_of_nat)
       ([[9]; [10]; [11]; [12]; [13]; [32]; [194; 160]; [225; 154; 128]]
        ++ map (fun b => [226; 128; b]) (seq 128 11)
        ++ [[226; 128; 168]; [226; 128; 169]; [226; 128; 175];
            [226; 129; 159]; [227; 128; 128]; [239; 187; 191]]))%list.

Definition drop (n : nat) (s : string) : string :=
  String.substring n (String.length s - n) s.

Definition strip_one (s : string) : option string :=
  match find (fun ws => String.prefix ws s) white_space with
  | Some ws => Some (drop (String.length ws) s)
  | None => None
  end.

Fixpoint trimStart_fuel (fuel : nat) (s : string) : string :=
  match fuel with
  | O => s
  | S fuel' =>
      match strip_one s with
      | Some rest => trimStart_fuel fuel' rest
      | None => s
      end
  end.

Definition trimStart (s : string) : string :=
  trimStart_fuel (String.length s) s.

Fixpoint strip_zeros (s : string) : string :=
  match s with
  | String "0" rest => strip_zeros rest
  | _ => s
  end.

Definition rev_string (s : string) : string :=
  string_of_list_ascii (rev (list_ascii_of_string s)).

(** The number denoted by the digits [ds] scaled by [10^e]. *)
Definition decimal_value (neg : bool) (ds : string) (e : Z) : JsNumber :=
  let lead := strip_zeros ds in
  let sig := rev_string (strip_zeros (rev_string lead)) in
  match N_of_digits sig with
  | N0 => Zero neg
  | Npos s => Finite neg s (Z.of_nat (String.length lead) + e)
  end.

Definition parse_exponent (s : string) : Z :=
  match s with
  | String c rest =>
      if (Ascii.eqb c "e" || Ascii.eqb c "E")%bool then
        let (neg, r) :=
          match rest with
          | String "-" r => (true, r)
          | String "+" r => (false, r)
          | _ => (false, rest)
          end in
        let (d, _) := take_digits r in
        match d with
        | EmptyString => 0%Z
        | _ => if neg then (- Z.of_N (N_of_digits d))%Z else Z.of_N (N_of_digits d)
        end
      else 0%Z
  | EmptyString => 0%Z
  end.

(** [parseFloat(string)]: the longest prefix of the trimmed input that is a
    StrDecimalLiteral, [NaN] when there is none. *)
Definition parseFloat (input : string) : JsNumber :=
  let s := trimStart input in
  let (neg, s1) :=
    match s with
    | String "-" r => (true, r)
    | String "+" r => (false, r)
    | _ => (false, s)
    end in
  if String.prefix "Infinity" s1 then Infinity neg
  else
    let (ip, r1) := take_digits s1 in
    let (fp, r2) :=
      match r1 with
      | String "." r => take_digits r
      | _ => (EmptyString, r1)
      end in
    match ip ++ fp with
    | EmptyString => NaN
    | ds => decimal_value neg ds (parse_exponent r2 - Z.of_nat (String.length fp))
    end.

(** ** Values read from a response body

    What [res.json()] resolves to: a value built by [JSON.parse].  An object is
    the list of its own properties. *)

#[warnings="-register-all"] Inductive Json : Type :=
| JNull
| JBool (b : bool)
| JNum (x : JsNumber)
| JStr (s : string)
| JArr (items : list Json)
| JObj (props : list (string * Json)).

(** The own property [k] of an object; a later member of the same name
    replaces an earlier one. *)
Fixpoint own_property (k : string) (props : list (string * Json)) : option Json :=
  match props with
  | [] => None
  | (k', v) :: rest =>
      match own_property k rest with
      | Some v' => Some v'
      | None => if String.eqb k' k then Some v else None
      end
  end.

Definition has_own (k : string) (props : list (string * Json)) : bool :=
  existsb (fun p => String.eqb (fst p) k) props.

Definition join (sep : string) (parts : list string) : string :=
  String.concat sep parts.

(** [ToString(v)] for a value built by [JSON.parse]; [None] is the TypeError
    of OrdinaryToPrimitive.  A plain object prints through
    [Object.prototype.toString] unless an own property [toString] hides it:
    that property is never callable, and [valueOf] (own or inherited) yields
    no primitive.  An array prints through [join], where [null] elements
    print as the empty string. *)
Fixpoint ToString (v : Json) : option string :=
  match v with
  | JNull => Some "null"
  | JBool b => Some (if b then "true" else "false")
  | JNum x => Some (Number_toString x)
  | JStr s => Some s
  | JArr items =>
      let fix elements (l : list Json) : option (list string) :=
        match l with
        | [] => Some []
        | x :: rest =>
            match (match x with JNull => Some "" | _ => ToString x end),
                  elements rest with
            | Some s, Some ss => Some (s :: ss)
            | _, _ => None
            end
        end in
      option_map (join ",") (elements items)
  | JObj props =>
      if has_own "toString" props then None else Some "[object Object]"
  end.

(** [a ?? b] with [a] a property read ([None] is [undefined]). *)
Definition nullish (a : option Json) (b : Json) : Json :=
  match a with
  | None | Some JNull => b
  | Some v => v
  end.

(** ** URLSearchParams

    The application/x-www-form-urlencoded serializer and parser of the URL
    standard, over bytes. *)

Definition URLSearchParams : Type := list (string * string).

Definition is_alnum (c : ascii) : bool :=
  let n := N_of_ascii c in
  (((48 <=? n) && (n <=? 57)) || ((65 <=? n) && (n <=? 90))
   || ((97 <=? n) && (n <=? 122)))%N.

(** Bytes the serializer leaves as they are: alphanumerics and [*-._]. *)
Definition is_unreserved (c : ascii) : bool :=
  is_alnum c
  || Ascii.eqb c "*" || Ascii.eqb c "-" || Ascii.eqb c "." || Ascii.eqb c "_".

Definition hex_digit (n : N) : ascii :=
  if (n <? 10)%N then ascii_of_N (48 + n) else ascii_of_N (55 + n).

Definition percent_encode_byte (c : ascii) : string :=
  let n := N_of_ascii c in
  String "%" (String (hex_digit (n / 16)) (String (hex_digit (n mod 16)) EmptyString)).

(** How the serializer writes one byte. *)
Definition urlencode_byte (c : ascii) : string :=
  if Ascii.eqb c " " then "+"
  else if is_unreserved c then String c EmptyString
  else percent_encode_byte c.

Fixpoint urlencode (s : string) : string :=
  match s with
  | EmptyString => EmptyString
  | String c rest =>
      urlencode_byte c ++ urlencode rest
  end.

(** [params.toString()]. *)
Definition URLSearchParams_toString (params : URLSearchParams) : string :=
  join "&" (map (fun p => urlencode (fst p) ++ "=" ++ urlencode (snd p)) params).

Definition hex_value (c : ascii) : option N :=
  let n := N_of_ascii c in
  if ((48 <=? n) && (n <=? 57))%N then Some (n - 48)%N
  else if ((65 <=? n) && (n <=? 70))%N then Some (n - 55)%N
  else if ((97 <=? n) && (n <=? 102))%N then Some (n - 87)%N
  else None.

(** Replace [+] by a space, then percent-decode. *)
Fixpoint urldecode (s : string) : string :=
  match s with
  | EmptyString => EmptyString
  | String c rest =>
      if Ascii.eqb c "+" then String " " (urldecode rest)
      else
        match rest with
        | String h (String l rest') =>
            match (if Ascii.eqb c "%" then hex_value h else None), hex_value l with
            | Some hv, Some lv => String (ascii_of_N (hv * 16 + lv)) (urldecode rest')
            | _, _ => String c (urldecode rest)
            end
        | _ => String c (urldecode rest)
        end
  end.

(** Split at every [sep]. *)
Fixpoint split_on (sep : ascii) (s : string) : list string :=
  match s with
  | EmptyString => [EmptyString]
  | String c rest =>
      if Ascii.eqb c sep then EmptyString :: split_on sep rest
      else
        match split_on sep rest with
        | first :: more => String c first :: more
        | [] => [String c EmptyString]
        end
  end.

(** Split at the first [sep]: what is before it and what is after it. *)
Fixpoint cut_at (sep : ascii) (s : string) : string * option string :=
  match s with
  | EmptyString => (EmptyString, None)
  | String c rest =>
      if Ascii.eqb c sep then (EmptyString, Some rest)
      else let (a, b) := cut_at sep rest in (String c a, b)
  end.

Definition parse_pair (piece : string) : string * string :=
  let (n, v) := cut_at "=" piece in
  (urldecode n, urldecode (match v with Some v => v | None => EmptyString end)).

(** The urlencoded parser: empty pieces are skipped. *)
Definition URLSearchParams_parse (query : string) : URLSearchParams :=
  map parse_pair
    (filter (fun piece => negb (String.eqb piece EmptyString)) (split_on "&" query)).

(** [params.get(name)]: the first value of that name, [null] when none. *)
Fixpoint URLSearchParams_get (k : string) (params : URLSearchParams) : option string :=
  match params with
  | [] => None
  | (k', v) :: rest => if String.eqb k' k then Some v else URLSearchParams_get k rest
  end.

(** The byte [c] occurs in [s]. *)
Fixpoint has_char (c : ascii) (s : string) : bool :=
  match s with
  | EmptyString => false
  | String c' rest => Ascii.eqb c' c || has_char c rest
  end.

(** The bytes that delimit a query and its pairs. *)
Definition is_delimiter (c : ascii) : bool :=
  Ascii.eqb c "&" || Ascii.eqb c "=" || Ascii.eqb c "#" || Ascii.eqb c "?".

(** One serialized pair. *)
Definition pair_text (p : string * string) : string :=
  urlencode (fst p) ++ "=" ++ urlencode (snd p).

(** The [url] a route's [load] receives, reduced to what it reads. *)
Record URL : Type := mkURL { searchParams : URLSearchParams }.

(** The URL the router builds from the string handed to [goto]: the query is
    what follows the first [?], up to a [#]. *)
Definition URL_of_href (href : string) : URL :=
  match snd (cut_at "?" (fst (cut_at "#" href))) with
  | Some q => mkURL (URLSearchParams_parse q)
  | None => mkURL []
  end.

(** ** The platform

    A [Response] is reduced to its status and to what reading its body as
    JSON gives; [res.ok] is the Fetch standard's "ok status". *)

Inductive JsonOutcome : Type :=
| JsonRejects (e : Exn)
| JsonResolves (data : Json).

Record Response : Type := mkResponse
  { status : N;
    json_outcome : JsonOutcome }.

Definition ok (res : Response) : bool :=
  ((200 <=? status res) && (status res <=? 299))%N.

Inductive FetchOutcome : Type :=
| FetchRejects (e : Exn)
| FetchResolves (res : Response).

Record Env : Type := mkEnv
  { PUBLIC_API_BASE : string;
    (* how [fetch(url, {method, body})] settles *)
    fetch_outcome : string -> string -> FormData -> FetchOutcome;
    (* what [goto(url)] throws, if anything *)
    goto_outcome : string -> option Exn;
    (* origin and UUID of the blob URL minted for a file *)
    object_url_id : File -> string;
    (* the engine's message for reading a property of null *)
    null_read_message : string -> string;
    (* the engine's message when an object has no primitive form *)
    not_primitive_message : string }.

(** ** The monad of the script *)

Definition M (A : Type) : Type := World -> (Exn + A) * World * list Effect.

Definition ret {A} (a : A) : M A := fun w => (inr a, w, []).

Definition bind {A B} (m : M A) (k : A -> M B) : M B :=
  fun w =>
    match m w with
    | (inl e, w1, t1) => (inl e, w1, t1)
    | (inr a, w1, t1) =>
        match k a w1 with
        | (r, w2, t2) => (r, w2, (t1 ++ t2)%list)
        end
    end.

Notation "x <- m ;; k" := (bind m (fun x => k))
  (at level 61, m at next level, right associativity).
Notation "m ;; k" := (bind m (fun _ => k))
  (at level 61, right associativity).

Definition throw {A} (e : Exn) : M A := fun w => (inl e, w, []).

Definition get : M World := fun w => (inr w, w, []).

Definition emit (e : Effect) : M unit := fun w => (inr tt, w, [e]).

(** [try { body } catch (e) { handler } finally { final }] *)
Definition try_catch_finally {A} (body : M A) (handler : Exn -> M A) (final : M unit) : M A :=
  fun w =>
    match body w with
    | (r1, w1, t1) =>
        match (match r1 with
               | inl e => handler e w1
               | inr a => (inr a, w1, [])
               end) with
        | (r2, w2, t2) =>
            match final w2 with
            | (r3, w3, t3) =>
                (match r3 with inl e => inl e | inr _ => r2 end,
                 w3, (t1 ++ t2 ++ t3)%list)
            end
        end
    end.

Definition result_of {A} (m : M A) (w : World) : Exn + A := fst (fst (m w)).
Definition world_after {A} (m : M A) (w : World) : World := snd (fst (m w)).
Definition effects_of {A} (m : M A) (w : World) : list Effect := snd (m w).

(** *** Assignments *)

Definition assign_error (msg : string) : M unit :=
  fun w => (inr tt,
            mkWorld (file w) (previewUrl w) msg (uploading w) (dragActive w)
                    (fileInput w) (blobStore w),
            [SetError msg]).

Definition assign_file (f : option File) : M unit :=
  fun w => (inr tt,
            mkWorld f (previewUrl w) (error w) (uploading w) (dragActive w)
                    (fileInput w) (blobStore w),
            [SetFile f]).

Definition assign_previewUrl (u : option string) : M unit :=
  fun w => (inr tt,
            mkWorld (file w) u (error w) (uploading w) (dragActive w)
                    (fileInput w) (blobStore w),
            [SetPreviewUrl u]).

Definition assign_uploading (b : bool) : M unit :=
  fun w => (inr tt,
            mkWorld (file w) (previewUrl w) (error w) b (dragActive w)
                    (fileInput w) (blobStore w),
            [SetUploading b]).

Definition assign_dragActive (b : bool) : M unit :=
  fun w => (inr tt,
            mkWorld (file w) (previewUrl w) (error w) (uploading w) b
                    (fileInput w) (blobStore w),
            [SetDragActive b]).

(** *** Calls into the platform *)

(** [URL.revokeObjectURL(u)]: the entry leaves the blob URL store. *)
Definition revokeObjectURL (u : string) : M unit :=
  fun w => (inr tt,
            mkWorld (file w) (previewUrl w) (error w) (uploading w) (dragActive w)
                    (fileInput w) (remove string_dec u (blobStore w)),
            [RevokeObjectURL u]).

(** [URL.createObjectURL(f)]: a new entry, named ["blob:"] and then the
    origin and a UUID. *)
Definition createObjectURL (env : Env) (f : File) : M string :=
  fun w =>
    let u := "blob:" ++ object_url_id env f in
    (inr u,
     mkWorld (file w) (previewUrl w) (error w) (uploading w) (dragActive w)
             (fileInput w) (blobStore w ++ [u])%list,
     [CreateObjectURL f u]).

(** [await fetch(url, { method, body })] *)
Definition fetch (env : Env) (url method : string) (body : FormData) : M Response :=
  emit (Fetch url method body) ;;
  match fetch_outcome env url method body with
  | FetchRejects e => throw e
  | FetchResolves res => ret res
  end.

(** [await res.json()] *)
Definition json (res : Response) : M Json :=
  emit ReadJson ;;
  match json_outcome res with
  | JsonRejects e => throw e
  | JsonResolves data => ret data
  end.

Definition goto (env : Env) (url : string) : M unit :=
  emit (Goto url) ;;
  match goto_outcome env url with
  | Some e => throw e
  | None => ret tt
  end.

(** [data.k] for one of the names the script reads; none of them is a
    property of a string, number, boolean or array.  Reading a property of
    [null] throws. *)
Definition read_property (env : Env) (data : Json) (k : string) : M (option Json) :=
  match data with
  | JNull => throw (Error (null_read_message env k))
  | JObj props => ret (own_property k props)
  | _ => ret None
  end.

(** [String(v)], and the conversion of a record's value to a string by the
    [URLSearchParams] constructor. *)
Definition String_of (env : Env) (v : Json) : M string :=
  match ToString v with
  | Some s => ret s
  | None => throw (Error (not_primitive_message env))
  end.

(** [new URLSearchParams({ k1: v1, ... })] *)
Fixpoint new_URLSearchParams (env : Env) (init : list (string * Json)) : M URLSearchParams :=
  match init with
  | [] => ret []
  | (k, v) :: rest =>
      s <- String_of env v ;;
      params <- new_URLSearchParams env rest ;;
      ret ((k, s) :: params)
  end.

(** JavaScript truthiness of a [string | null]. *)
Definition truthy (u : option string) : bool :=
  match u with
  | Some (String _ _) => true
  | _ => false
  end.

(** ** The component script *)

Definition msg_type : string := "รองรับเฉพาะ .jpg .png .webp".
Definition msg_size : string := "ไฟล์ใหญ่เกิน " ++ N_toString MAX_SIZE_MB ++ "MB".
Definition msg_no_file : string := "กรุณาเลือกไฟล์ภาพ".
Definition msg_upload_failed : string := "อัปโหลดไม่สำเร็จ".

(** [<input type="file">], reduced to [files]. *)
Record HTMLInputElement : Type := mkInput { files : option (list File) }.

Record DataTransfer : Type := mkDataTransfer { transfer_files : option (list File) }.

Record DragEvent : Type := mkDragEvent { dataTransfer : option DataTransfer }.

(** [files?.[0] ?? null] *)
Definition first_file (fs : option (list File)) : option File :=
  match fs with
  | Some (f :: _) => Some f
  | _ => None
  end.

Definition openFileDialog : M unit :=
  w <- get ;;
  if fileInput w then emit ClickInput else ret tt.

(** [if (previewUrl) URL.revokeObjectURL(previewUrl);] *)
Definition revoke_preview : M unit :=
  w <- get ;;
  match previewUrl w with
  | Some u => if truthy (Some u) then revokeObjectURL u else ret tt
  | None => ret tt
  end.

Definition reset : M unit :=
  assign_error "" ;;
  assign_file None ;;
  revoke_preview ;;
  assign_previewUrl None.

Definition validateAndSet (env : Env) (f : option File) : M unit :=
  assign_error "" ;;
  match f with
  | None => ret tt
  | Some f =>
      if negb (Array_includes ACCEPT (type f)) then assign_error msg_type
      else
        let maxBytes := (MAX_SIZE_MB * 1024 * 1024)%N in
        if (maxBytes <? size f)%N (* f.size > maxBytes *) then assign_error msg_size
        else
          assign_file (Some f) ;;
          revoke_preview ;;
          u <- createObjectURL env f ;;
          assign_previewUrl (Some u)
  end.

Definition onPick (env : Env) (currentTarget : HTMLInputElement) : M unit :=
  let f := first_file (files currentTarget) in
  validateAndSet env f.

Definition onDrop (env : Env) (e : DragEvent) : M unit :=
  emit PreventDefault ;;
  emit StopPropagation ;;
  assign_dragActive false ;;
  let f :=
    match dataTransfer e with
    | Some dt => first_file (transfer_files dt)
    | None => None
    end in
  validateAndSet env f.

Definition onDragOver : M unit :=
  emit PreventDefault ;;
  emit StopPropagation ;;
  assign_dragActive true.

Definition onDragLeave : M unit := assign_dragActive false.

(** The [try] block of [submit] (script lines 63 to 73). *)
Definition request (env : Env) (file : File) : M unit :=
  let form := ([] ++ [("file", file)])%list in
  res <- fetch env (PUBLIC_API_BASE env ++ "/predict") "POST" form ;;
  if negb (ok res) then throw (Error ("HTTP " ++ N_toString (status res)))
  else
    data <- json res ;;
    label <- read_property env data "label" ;;
    prob <- read_property env data "prob" ;;
    prob_string <- String_of env (nullish prob (JStr "")) ;;
    request_id <- read_property env data "request_id" ;;
    q <- new_URLSearchParams env
           [("label", nullish label (JStr ""));
            ("prob", JStr prob_string);
            ("id", nullish request_id (JStr ""))] ;;
    goto env ("/result?" ++ URLSearchParams_toString q).

Definition submit (env : Env) : M unit :=
  assign_error "" ;;
  w <- get ;;
  match file w with
  | None => assign_error msg_no_file
  | Some f =>
      assign_uploading true ;;
      try_catch_finally
        (request env f)
        (fun e =>
           assign_error (match message e with
                         | Some m => m
                         | None => msg_upload_failed
                         end))
        (assign_uploading false)
  end.

(** ** The result route's [load] *)

Record PageData : Type := mkPageData
  { label : string;
    prob : JsNumber }.

Definition load (url : URL) : PageData :=
  let label :=
    match URLSearchParams_get "label" (searchParams url) with
    | Some s => s
    | None => ""
    end in
  let prob :=
    parseFloat (match URLSearchParams_get "prob" (searchParams url) with
                | Some s => s
                | None => "0"
                end) in
  mkPageData label prob.

(** ** A session: event handlers run one after the other *)

Inductive Call : Type :=
| BindInput
| OpenFileDialog
| ResetCall
| OnPick (currentTarget : HTMLInputElement)
| OnDrop (e : DragEvent)
| OnDragOver
| OnDragLeave
| Submit.

(** [bind:this={fileInput}], when the component mounts. *)
Definition bind_input : M unit :=
  fun w => (inr tt,
            mkWorld (file w) (previewUrl w) (error w) (uploading w) (dragActive w)
                    true (blobStore w),
            []).

Definition exec (env : Env) (c : Call) : M unit :=
  match c with
  | BindInput => bind_input
  | OpenFileDialog => openFileDialog
  | ResetCall => reset
  | OnPick t => onPick env t
  | OnDrop e => onDrop env e
  | OnDragOver => onDragOver
  | OnDragLeave => onDragLeave
  | Submit => submit env
  end.

(** The page as the script's initialisers leave it, before any event. *)
Definition initial : World :=
  mkWorld None None "" false false false [].

(** Run the calls in order, each against what the platform answers at that
    moment; an exception that escapes a handler ends that handler only. *)
Fixpoint run (session : list (Env * Call)) (w : World) : World * list Effect :=
  match session with
  | [] => (w, [])
  | (env, c) :: rest =>
      match exec env c w with
      | (_, w1, t1) =>
          match run rest w1 with
          | (w2, t2) => (w2, (t1 ++ t2)%list)
          end
      end
  end.

(** ** Reading a list of effects *)

(** The blob URL store after one effect. *)
Definition store_after (store : list string) (e : Effect) : list string :=
  match e with
  | RevokeObjectURL u => remove string_dec u store
  | CreateObjectURL _ u => (store ++ [u])%list
  | _ => store
  end.

Definition replay (store : list string) (t : list Effect) : list string :=
  fold_left store_after t store.

Inductive SubmissionState : Type := Idle | Uploading.

Definition state_of (uploading : bool) : SubmissionState :=
  if uploading then Uploading else Idle.

(** The values assigned to [uploading], in order. *)
Fixpoint uploading_writes (t : list Effect) : list bool :=
  match t with
  | [] => []
  | SetUploading b :: rest => b :: uploading_writes rest
  | _ :: rest => uploading_writes rest
  end.

(** The Submission State at entry and after every assignment to
    [uploading]. *)
Definition submission_states (w : World) (t : list Effect) : list SubmissionState :=
  state_of (uploading w) :: map state_of (uploading_writes t).

(** The URLs [goto] was called with, in order. *)
Fixpoint navigations (t : list Effect) : list string :=
  match t with
  | [] => []
  | Goto url :: rest => url :: navigations rest
  | _ :: rest => navigations rest
  end.

Definition is_network (e : Effect) : bool :=
  match e with
  | Fetch _ _ _ => true
  | _ => false
  end.

Definition is_json_read (e : Effect) : bool :=
  match e with
  | ReadJson => true
  | _ => false
  end.

Definition is_uploading_write (e : Effect) : bool :=
  match e with
  | SetUploading _ => true
  | _ => false
  end.

(** Effects that touch the Candidate File or the Preview Handle. *)
Definition touches_candidate (e : Effect) : bool :=
  match e with
  | SetFile _ | SetPreviewUrl _ | RevokeObjectURL _ | CreateObjectURL _ _ => true
  | _ => false
  end.

(** The acceptance rules of [validateAndSet]. *)
Definition accepted (f : File) : bool :=
  Array_includes ACCEPT (type f) && negb (MAX_SIZE_MB * 1024 * 1024 <? size f)%N.

(** The blob URL store at entry and after every effect. *)
Fixpoint store_history (store : list string) (t : list Effect) : list (list string) :=
  match t with
  | [] => [store]
  | e :: rest => store :: store_history (store_after store e) rest
  end.

(** The live object URLs are exactly the one [previewUrl] holds, if any. *)
Definition handle_inv (w : World) : Prop :=
  match previewUrl w with
  | None => blobStore w = []
  | Some u => u <> "" /\ blobStore w = [u]
  end.

(** [stays R P m]: the computation [m] moves the world along [R] and emits
    no effect selected by [P]. *)
Definition stays (R : World -> World -> Prop) (P : Effect -> bool) {A} (m : M A) : Prop :=
  forall w, R w (world_after m w) /\ filter P (effects_of m w) = [].

(** Everything of the world but [error] and [uploading] is the same. *)
Definition same_candidate (w w' : World) : Prop :=
  file w' = file w /\ previewUrl w' = previewUrl w /\ blobStore w' = blobStore w
  /\ dragActive w' = dragActive w /\ fileInput w' = fileInput w.

(** [uploading] is what it was. *)
Definition same_uploading (w w' : World) : Prop := uploading w' = uploading w.

(** At most one live object URL. *)
Definition at_most_one (store : list string) : Prop := (List.length store <= 1)%nat.

(** What one call does to a world in which the invariant holds. *)
Definition call_ok (m : M unit) (w : World) : Prop :=
  handle_inv (world_after m w)
  /\ blobStore (world_after m w) = replay (blobStore w) (effects_of m w)
  /\ Forall at_most_one (store_history (blobStore w) (effects_of m w)).

(** Whether a message states the limit, [MAX_SIZE_MB] followed by MB. *)
Definition states_limit (msg : string) : bool :=
  String_includes (N_toString MAX_SIZE_MB ++ "MB") msg.


(** [data.k] where reading it does not throw. *)
Definition property (data : Json) (k : string) : option Json :=
  match data with
  | JObj props => own_property k props
  | _ => None
  end.

(** [data.k ?? ''] *)
Definition field_value (data : Json) (k : string) : Json :=
  nullish (property data k) (JStr "").

(** The three fields the script reads all have a string form. *)
Definition printable (data : Json) : bool :=
  forallb (fun k => match ToString (field_value data k) with
                    | Some _ => true
                    | None => false
                    end)
          ["label"; "prob"; "request_id"].

(** The string form of [data.k ?? '']. *)
Definition field_text (data : Json) (k : string) : string :=
  match ToString (field_value data k) with
  | Some s => s
  | None => ""
  end.

(** Strings, numbers, booleans and [null]. *)
Definition is_primitive (v : Json) : bool :=
  match v with
  | JArr _ | JObj _ => false
  | _ => true
  end.

(** ** Sample inputs *)

Definition png_2MB : File := mkFile "wall.png" "image/png" (2 * 1024 * 1024).
Definition jpeg_12MB : File := mkFile "facade.jpg" "image/jpeg" (12 * 1024 * 1024).
Definition gif_1MB : File := mkFile "anim.gif" "image/gif" (1024 * 1024).
Definition gif_12MB : File := mkFile "big.gif" "image/gif" (12 * 1024 * 1024).

(** A platform whose prediction service answers [res] to every request. *)
Definition env_answering (res : Response) : Env :=
  mkEnv "http://localhost:8000"
        (fun _ _ _ => FetchResolves res)
        (fun _ => None)
        (fun f => "http://localhost:5173/" ++ name f)
        (fun k => "Cannot read properties of null (reading '" ++ k ++ "')")
        "Cannot convert object to primitive value".

Definition env_500 : Env := env_answering (mkResponse 500 (JsonResolves JNull)).

Definition crack_payload : Json :=
  JObj [("label", JStr "crack");
        ("prob", JNum (Finite false 87 0));
        ("request_id", JStr "abc123")].

(** A 200 response whose body is the JSON text [null]. *)
Definition response_null : Response := mkResponse 200 (JsonResolves JNull).

(** A 200 response whose body has no [prob]. *)
Definition response_without_prob : Response :=
  mkResponse 200
    (JsonResolves (JObj [("label", JStr "crack"); ("request_id", JStr "abc123")])).

(** The page once [png_2MB] has been picked. *)
Definition with_png : World :=
  world_after (validateAndSet env_500 (Some png_2MB)) initial.


(** Run the script's control flow, leaving the tests on the inputs as the
    script writes them. *)
Ltac run_script :=
  cbn -[N.ltb N.mul Array_includes String_includes N_toString append ok
        URLSearchParams_toString ToString String_of nullish request remove
        string_dec].


(** ** Further parts of the page *)

(** The [on:keydown] handler of the drop zone (markup lines 108 to 113). *)
Definition onKeydown (key : string) : M unit :=
  if (String.eqb key "Enter" || String.eqb key " ")%bool
  then emit PreventDefault ;; openFileDialog
  else ret tt.

(** [disabled={uploading || !file}], on both buttons. *)
Definition buttons_disabled (w : World) : bool :=
  uploading w || match file w with Some _ => false | None => true end.

(** [{#if previewUrl}]: whether the preview panel is rendered. *)
Definition preview_shown (w : World) : bool := truthy (previewUrl w).

(** The world with another Error Message. *)
Definition with_error (w : World) (msg : string) : World :=
  mkWorld (file w) (previewUrl w) msg (uploading w) (dragActive w)
          (fileInput w) (blobStore w).

(** A computation that neither reads nor changes the world: its result and
    its effects are the same from every world. *)
Definition pure {A} (m : M A) : Prop :=
  exists r t, forall w, m w = (r, w, t).

(** What holds of the page between two handler calls. *)
Definition settled (w : World) : Prop :=
  handle_inv w
  /\ (file w = None <-> previewUrl w = None)
  /\ (forall f, file w = Some f -> accepted f = true)
  /\ uploading w = false.

(** An effect that is no upload, or the upload of one accepted file as the
    part [file] of a POST. *)
Definition upload_ok (e : Effect) : Prop :=
  match e with
  | Fetch _ method body =>
      method = "POST" /\ exists f, body = [("file", f)] /\ accepted f = true
  | _ => True
  end.

(** What the [try] block of [submit] returns and emits (it does not depend
    on the world it runs in). *)
Definition request_result (env : Env) (f : File) : Exn + unit :=
  result_of (request env f) initial.

Definition request_effects (env : Env) (f : File) : list Effect :=
  effects_of (request env f) initial.

(** [e?.message ?? 'อัปโหลดไม่สำเร็จ'] *)
Definition failure_message (e : Exn) : string :=
  match message e with
  | Some m => m
  | None => msg_upload_failed
  end.

(** Any two worlds are related. *)
Definition anywhere (w w' : World) : Prop := True.

(** Every byte of [s] is a decimal digit. *)
Fixpoint all_digits (s : string) : bool :=
  match s with
  | EmptyString => true
  | String c rest => is_digit c && all_digits rest
  end.

(** [parseFloat] once the sign is read and the input is known not to be
    [Infinity]: the digits, the fraction and the exponent. *)
Definition parse_digits (neg : bool) (s1 : string) : JsNumber :=
  let (ip, r1) := take_digits s1 in
  let (fp, r2) :=
    match r1 with
    | String "." r => take_digits r
    | _ => (EmptyString, r1)
    end in
  match ip ++ fp with
  | EmptyString => NaN
  | ds => decimal_value neg ds (parse_exponent r2 - Z.of_nat (String.length fp))
  end.

(** The digits [s] of a finite number are the shortest ones: no trailing
    zero. *)
Definition shortest (x : JsNumber) : bool :=
  match x with
  | Finite _ s _ => negb (N.eqb (Npos s mod 10) 0)
  | _ => true
  end.

(** [-0] prints as [0]; every other number is read back as itself. *)
Definition read_back (x : JsNumber) : JsNumber :=
  match x with
  | Zero _ => Zero false
  | _ => x
  end.

(** Where a run of digits stops. *)
Definition stops (b : string) : Prop :=
  match b with
  | EmptyString => True
  | String c _ => is_digit c = false
  end.


(** [submit], with [f] chosen, sent the request, read the body and ended in
    its [catch] handler: the handler assigned [msg] to [error], and [goto]
    was not called. *)
Definition fails_after_read (env : Env) (w : World) (f : File) (msg : string) : Prop :=
  effects_of (submit env) w
  = [SetError ""; SetUploading true;
     Fetch (PUBLIC_API_BASE env ++ "/predict") "POST" [("file", f)];
     ReadJson; SetError msg; SetUploading false]
  /\ navigations (effects_of (submit env) w) = []
  /\ error (world_after (submit env) w) = msg.

(** ** [submit] between its awaits

    [submit] is an async function: called, it runs to [await fetch(...)];
    when that promise settles it runs on to [await res.json()]; when the
    body is read it runs to the end of [finally].  Between these three
    runs the event loop is free to run any other handler. *)

(** From the call to the first [await] (script lines 59 to 65): the file
    whose upload was started, if one was. *)
Definition submit_begin (env : Env) : M (option File) :=
  assign_error "" ;;
  w <- get ;;
  match file w with
  | None => assign_error msg_no_file ;; ret None
  | Some f =>
      assign_uploading true ;;
      let form := ([] ++ [("file", f)])%list in
      emit (Fetch (PUBLIC_API_BASE env ++ "/predict") "POST" form) ;;
      ret (Some f)
  end.

(** [catch (e) { error = e?.message ?? '...' } finally { uploading = false }] *)
Definition catch_finally (e : Exn) : M unit :=
  assign_error (failure_message e) ;;
  assign_uploading false.

(** From the settlement of [fetch] to the second [await] (lines 65 to 67):
    the response whose body is being read, or nothing when the promise
    rejected or the status is no success, and [catch] and [finally] have
    run. *)
Definition submit_after_fetch (env : Env) (f : File) : M (option Response) :=
  let form := ([] ++ [("file", f)])%list in
  match fetch_outcome env (PUBLIC_API_BASE env ++ "/predict") "POST" form with
  | FetchRejects e => catch_finally e ;; ret None
  | FetchResolves res =>
      if negb (ok res)
      then catch_finally (Error ("HTTP " ++ N_toString (status res))) ;; ret None
      else emit ReadJson ;; ret (Some res)
  end.

(** Script lines 68 to 73: from the parsed body to [goto]. *)
Definition navigate (env : Env) (data : Json) : M unit :=
  label <- read_property env data "label" ;;
  prob <- read_property env data "prob" ;;
  prob_string <- String_of env (nullish prob (JStr "")) ;;
  request_id <- read_property env data "request_id" ;;
  q <- new_URLSearchParams env
         [("label", nullish label (JStr ""));
          ("prob", JStr prob_string);
          ("id", nullish request_id (JStr ""))] ;;
  goto env ("/result?" ++ URLSearchParams_toString q).

(** From the settlement of [res.json()] to the end of [finally]. *)
Definition submit_after_json (env : Env) (res : Response) : M unit :=
  try_catch_finally
    match json_outcome res with
    | JsonRejects e => throw e
    | JsonResolves data => navigate env data
    end
    (fun e => assign_error (failure_message e))
    (assign_uploading false).

(** The three runs one after the other, with nothing in between. *)
Definition submit_in_steps (env : Env) : M unit :=
  started <- submit_begin env ;;
  match started with
  | None => ret tt
  | Some f =>
      answered <- submit_after_fetch env f ;;
      match answered with
      | None => ret tt
      | Some res => submit_after_json env res
      end
  end.

(** ** The page with submissions in flight *)

(** A call of [submit] that waits at one of its awaits, with the platform
    it was started on. *)
Inductive Pending : Type :=
| AwaitingFetch (env : Env) (f : File)
| AwaitingJson (env : Env) (res : Response).

Record Page : Type := mkPage
  { world : World;
    pending : list Pending }.

(** What the event loop runs next: a function of the script is called (a
    call of [submit] runs to its first await), the Predict button is
    clicked (markup line 172: a disabled button fires no click), or the
    promise that the [i]-th waiting call awaits settles. *)
Inductive Event : Type :=
| Handler (env : Env) (c : Call)
| ClickPredict (env : Env)
| Settles (i : nat).

Fixpoint remove_at {A} (i : nat) (l : list A) : list A :=
  match l, i with
  | [], _ => []
  | _ :: rest, O => rest
  | x :: rest, S j => x :: remove_at j rest
  end.

Fixpoint replace_at {A} (i : nat) (y : A) (l : list A) : list A :=
  match l, i with
  | [], _ => []
  | _ :: rest, O => y :: rest
  | x :: rest, S j => x :: replace_at j y rest
  end.

Definition start_submit (env : Env) (pg : Page) : Page * list Effect :=
  match submit_begin env (world pg) with
  | (inr (Some f), w1, t) => (mkPage w1 (pending pg ++ [AwaitingFetch env f])%list, t)
  | (_, w1, t) => (mkPage w1 (pending pg), t)
  end.

Definition settle (i : nat) (pg : Page) : Page * list Effect :=
  match nth_error (pending pg) i with
  | None => (pg, [])
  | Some (AwaitingFetch env f) =>
      match submit_after_fetch env f (world pg) with
      | (inr (Some res), w1, t) =>
          (mkPage w1 (replace_at i (AwaitingJson env res) (pending pg)), t)
      | (_, w1, t) => (mkPage w1 (remove_at i (pending pg)), t)
      end
  | Some (AwaitingJson env res) =>
      match submit_after_json env res (world pg) with
      | (_, w1, t) => (mkPage w1 (remove_at i (pending pg)), t)
      end
  end.

Definition step (ev : Event) (pg : Page) : Page * list Effect :=
  match ev with
  | Handler env Submit => start_submit env pg
  | Handler env c =>
      match exec env c (world pg) with
      | (_, w1, t) => (mkPage w1 (pending pg), t)
      end
  | ClickPredict env =>
      if buttons_disabled (world pg) then (pg, []) else start_submit env pg
  | Settles i => settle i pg
  end.

(** The events in order, from a page. *)
Fixpoint play (events : list Event) (pg : Page) : Page * list Effect :=
  match events with
  | [] => (pg, [])
  | ev :: rest =>
      match step ev pg with
      | (pg1, t1) =>
          match play rest pg1 with
          | (pg2, t2) => (pg2, (t1 ++ t2)%list)
          end
      end
  end.

(** The page as loaded: nothing chosen, nothing in flight. *)
Definition loaded : Page := mkPage initial [].

(** The page of a session that ran its submissions without interruption. *)
Definition quiet (w : World) : Page := mkPage w [].

(** No event calls [submit] behind the Predict button's back. *)
Definition through_button (ev : Event) : bool :=
  match ev with
  | Handler _ Submit => false
  | _ => true
  end.

(** What holds of the chosen file and its preview at every moment. *)
Definition paired (w : World) : Prop :=
  handle_inv w
  /\ (file w = None <-> previewUrl w = None)
  /\ (forall f, file w = Some f -> accepted f = true).

(** The requests sent and not yet answered. *)
Definition in_flight (pg : Page) : nat := List.length (pending pg).

(** ** Well-formed strings

    [s.isWellFormed()]: the string has no unpaired surrogate, which in the
    model of strings by their bytes is to say that [s] is the UTF-8 form of
    a sequence of Unicode scalar values. *)
Definition byte_in (lo hi : N) (c : ascii) : bool :=
  ((lo <=? N_of_ascii c) && (N_of_ascii c <=? hi))%N.

Fixpoint isWellFormed (s : string) : bool :=
  match s with
  | EmptyString => true
  | String a r1 =>
      if byte_in 0 127 a then isWellFormed r1
      else
        match r1 with
        | EmptyString => false
        | String b r2 =>
            if byte_in 194 223 a then byte_in 128 191 b && isWellFormed r2
            else
              match r2 with
              | EmptyString => false
              | String c r3 =>
                  if byte_in 224 239 a
                  then byte_in (if byte_in 224 224 a then 160 else 128)
                               (if byte_in 237 237 a then 159 else 191) b
                       && byte_in 128 191 c && isWellFormed r3
                  else
                    match r3 with
                    | EmptyString => false
                    | String d r4 =>
                        byte_in 240 244 a
                        && byte_in (if byte_in 240 240 a then 144 else 128)
                                   (if byte_in 244 244 a then 143 else 191) b
                        && byte_in 128 191 c && byte_in 128 191 d
                        && isWellFormed r4
                    end
              end
        end
  end.

(** * Properties *)

(** ** The number and string primitives on samples *)

Example toString_087 : Number_toString (Finite false 87 0) = "0.87".
Proof. reflexivity. Qed.

Example toString_forms :
  Number_toString (Finite false 125 5) = "12500"
  /\ Number_toString (Finite true 125 2) = "-12.5"
  /\ Number_toString (Finite false 1 (-6)) = "1e-7"
  /\ Number_toString (Finite false 15 22) = "1.5e+21"
  /\ Number_toString (Finite false 5 (-5)) = "0.000005".
Proof. repeat split. Qed.

Example parseFloat_forms :
  parseFloat "0.87" = Finite false 87 0
  /\ parseFloat "  -12.50px" = Finite true 125 2
  /\ parseFloat "1e-7" = Finite false 1 (-6)
  /\ parseFloat "1.5e+21" = Finite false 15 22
  /\ parseFloat "0" = Zero false
  /\ parseFloat "" = NaN
  /\ parseFloat "abc" = NaN
  /\ parseFloat "." = NaN
  /\ parseFloat "5.e3" = Finite false 5 4
  /\ parseFloat "[object Object]" = NaN.
Proof. repeat split. Qed.

Example urlencode_forms :
  urlencode "no crack/50%" = "no+crack%2F50%25"
  /\ urldecode "no+crack%2F50%25" = "no crack/50%"
  /\ URLSearchParams_toString [("label", "crack"); ("prob", ""); ("id", "a&b=c")]
     = "label=crack&prob=&id=a%26b%3Dc"
  /\ URLSearchParams_parse "label=crack&prob=&id=a%26b%3Dc"
     = [("label", "crack"); ("prob", ""); ("id", "a&b=c")]
  /\ URLSearchParams_parse "a=1&&b&=2" = [("a", "1"); ("b", ""); ("", "2")].
Proof. repeat split. Qed.

Example ToString_forms :
  ToString (JArr [JNum (Finite false 1 1); JNull; JArr [JBool true; JStr "x"]])
  = Some "1,,true,x"
  /\ ToString (JObj [("a", JNull)]) = Some "[object Object]"
  /\ ToString (JObj [("toString", JNull)]) = None
  /\ ToString (JArr [JObj [("toString", JStr "x")]]) = None.
Proof. repeat split. Qed.

(** ** Helpers *)

Lemma prefix_refl (s : string) : String.prefix s s = true.
Proof.
  induction s as [|c s IH]; simpl; [reflexivity|].
  destruct (ascii_dec c c); [exact IH | congruence].
Qed.

Lemma prefix_app (s t : string) : String.prefix s (s ++ t) = true.
Proof.
  induction s as [|c s IH]; simpl; [destruct t; reflexivity|].
  destruct (ascii_dec c c); [exact IH | congruence].
Qed.

Lemma String_includes_prefix (needle hay : string) :
  String.prefix needle hay = true -> String_includes needle hay = true.
Proof.
  intros H. destruct hay; unfold String_includes; fold String_includes;
    rewrite H; reflexivity.
Qed.

Lemma String_includes_middle (pre s post : string) :
  String_includes s (pre ++ s ++ post) = true.
Proof.
  induction pre as [|c pre IH].
  - change ("" ++ s ++ post) with (s ++ post).
    apply String_includes_prefix, prefix_app.
  - change ((String c pre) ++ s ++ post) with (String c (pre ++ s ++ post)).
    unfold String_includes; fold String_includes.
    rewrite IH. apply orb_true_r.
Qed.

Lemma String_includes_suffix (pre s : string) :
  String_includes s (pre ++ s) = true.
Proof.
  pose proof (String_includes_middle pre s "") as H.
  replace (s ++ "") with s in H; [exact H|].
  clear H. induction s as [|c s IH]; simpl; [reflexivity | now rewrite <- IH].
Qed.

(** ** validateAndSet *)

(** C1, as stated, fails: with a file already chosen, a rejected candidate
    does not leave the Candidate File unset; the earlier file stays. *)
Lemma validateAndSet_rejected_type_keeps_file :
  Array_includes ACCEPT (type gif_1MB) = false
  /\ file with_png = Some png_2MB
  /\ file (world_after (validateAndSet env_500 (Some gif_1MB)) with_png) = Some png_2MB
  /\ file (world_after (validateAndSet env_500 (Some gif_1MB)) with_png) <> None.
Proof. repeat split. discriminate. Qed.

(** C1 (amended): a candidate whose type is not in [ACCEPT] gets the
    message naming .jpg, .png and .webp, and neither the Candidate File nor
    the Preview Handle changes: no object URL is created or revoked; a
    Candidate File that was unset stays unset. *)
Theorem validateAndSet_rejects_type (env : Env) (w : World) (f : File) :
  Array_includes ACCEPT (type f) = false ->
  let w' := world_after (validateAndSet env (Some f)) w in
  error w' = msg_type
  /\ error w' <> ""
  /\ String_includes ".jpg" (error w') = true
  /\ String_includes ".png" (error w') = true
  /\ String_includes ".webp" (error w') = true
  /\ file w' = file w
  /\ previewUrl w' = previewUrl w
  /\ blobStore w' = blobStore w
  /\ effects_of (validateAndSet env (Some f)) w = [SetError ""; SetError msg_type]
  /\ (file w = None -> file w' = None).
Proof.
  intros H w'. subst w'.
  unfold world_after, effects_of, validateAndSet, bind. run_script.
  rewrite H. run_script.
  repeat split; try reflexivity; try discriminate. auto.
Qed.

Lemma validateAndSet_rejects_type_witness :
  Array_includes ACCEPT (type gif_1MB) = false
  /\ file (world_after (validateAndSet env_500 (Some gif_1MB)) initial) = None.
Proof.
  split; [reflexivity|].
  apply (validateAndSet_rejects_type env_500 initial gif_1MB); reflexivity.
Defined.

(** C2, as stated, fails: an oversize file of a type outside [ACCEPT] is
    turned down by the type rule, which comes first, and its message does
    not state the limit. *)
Lemma validateAndSet_oversize_gif_type_message :
  (MAX_SIZE_MB * 1024 * 1024 <? size gif_12MB)%N = true
  /\ error (world_after (validateAndSet env_500 (Some gif_12MB)) initial) = msg_type
  /\ states_limit (error (world_after (validateAndSet env_500 (Some gif_12MB)) initial)) = false.
Proof. repeat split. Qed.

(** C2 (amended): a candidate larger than [MAX_SIZE_MB] MiB is rejected
    whatever its type: the Error Message is not empty and neither the
    Candidate File nor the Preview Handle changes.  The message states the
    limit in MB when the type is in [ACCEPT]; otherwise it is the
    message of the type rule. *)
Theorem validateAndSet_rejects_oversize (env : Env) (w : World) (f : File) :
  (MAX_SIZE_MB * 1024 * 1024 <? size f)%N = true ->
  let w' := world_after (validateAndSet env (Some f)) w in
  error w' <> ""
  /\ file w' = file w
  /\ previewUrl w' = previewUrl w
  /\ blobStore w' = blobStore w
  /\ filter touches_candidate (effects_of (validateAndSet env (Some f)) w) = []
  /\ (Array_includes ACCEPT (type f) = true ->
      error w' = msg_size /\ states_limit (error w') = true)
  /\ (Array_includes ACCEPT (type f) = false -> error w' = msg_type).
Proof.
  intros H w'. subst w'.
  unfold world_after, effects_of, validateAndSet, bind. run_script.
  destruct (Array_includes ACCEPT (type f)) eqn:A; run_script.
  - rewrite H. run_script.
    repeat split; try reflexivity; try discriminate.
  - repeat split; try reflexivity; try discriminate.
Qed.

Lemma validateAndSet_rejects_oversize_witness :
  (MAX_SIZE_MB * 1024 * 1024 <? size jpeg_12MB)%N = true
  /\ error (world_after (validateAndSet env_500 (Some jpeg_12MB)) with_png) = msg_size
  /\ file (world_after (validateAndSet env_500 (Some jpeg_12MB)) with_png) = Some png_2MB.
Proof.
  split; [reflexivity|].
  pose proof (validateAndSet_rejects_oversize env_500 with_png jpeg_12MB eq_refl) as H.
  cbv zeta in H.
  destruct H as (_ & Hf & _ & _ & _ & Hm & _).
  split; [apply Hm; reflexivity | exact Hf].
Defined.

(** ** Computations that stay within a frame

    [stays R P m]: [m] moves the world along [R] and emits no effect
    selected by [P].  The combinators of the script preserve this. *)

Section Frame.

Variable R : World -> World -> Prop.
Variable P : Effect -> bool.
Hypothesis R_refl : forall w, R w w.
Hypothesis R_trans : forall a b c, R a b -> R b c -> R a c.

Lemma stays_ret {A} (a : A) : stays R P (ret a).
Proof. intros w. split; [apply R_refl | reflexivity]. Qed.

Lemma stays_throw {A} (e : Exn) : stays R P (@throw A e).
Proof. intros w. split; [apply R_refl | reflexivity]. Qed.

Lemma stays_get : stays R P get.
Proof. intros w. split; [apply R_refl | reflexivity]. Qed.

Lemma stays_emit (e : Effect) : P e = false -> stays R P (emit e).
Proof.
  intros H w. split; [apply R_refl|].
  unfold effects_of, emit. simpl. now rewrite H.
Qed.

Lemma stays_bind {A B} (m : M A) (k : A -> M B) :
  stays R P m -> (forall a, stays R P (k a)) -> stays R P (bind m k).
Proof.
  intros Hm Hk w. specialize (Hm w).
  unfold world_after, effects_of, bind in *.
  destruct (m w) as [[[e|a] w1] t1]; simpl in *; [exact Hm|].
  specialize (Hk a w1). unfold world_after, effects_of in Hk.
  destruct (k a w1) as [[r w2] t2]; simpl in *.
  destruct Hm as [Hm1 Hm2], Hk as [Hk1 Hk2]. split.
  - eapply R_trans; eassumption.
  - rewrite filter_app, Hm2, Hk2. reflexivity.
Qed.

Lemma stays_try_catch_finally {A} (body : M A) (handler : Exn -> M A) (final : M unit) :
  stays R P body -> (forall e, stays R P (handler e)) -> stays R P final ->
  stays R P (try_catch_finally body handler final).
Proof.
  intros Hb Hh Hf w. specialize (Hb w).
  unfold world_after, effects_of, try_catch_finally in *.
  destruct (body w) as [[r1 w1] t1]; simpl in *.
  destruct Hb as [Hb1 Hb2].
  assert (Hmid : forall x : (Exn + A) * World * list Effect,
             R w1 (snd (fst x)) /\ filter P (snd x) = [] ->
             R w (snd (fst (let '(r2, w2, t2) := x in
                            let '(r3, w3, t3) := final w2 in
                            (match r3 with inl e => inl e | inr _ => r2 end,
                             w3, (t1 ++ t2 ++ t3)%list))))
             /\ filter P (snd (let '(r2, w2, t2) := x in
                            let '(r3, w3, t3) := final w2 in
                            (match r3 with inl e => inl e | inr _ => r2 end,
                             w3, (t1 ++ t2 ++ t3)%list))) = []).
  { intros [[r2 w2] t2] [H1 H2]. simpl in *.
    specialize (Hf w2). unfold world_after, effects_of in Hf.
    destruct (final w2) as [[r3 w3] t3]; simpl in *.
    destruct Hf as [Hf1 Hf2]. split.
    - eapply R_trans; [exact Hb1|]. eapply R_trans; eassumption.
    - rewrite !filter_app, Hb2, H2, Hf2. reflexivity. }
  destruct r1 as [e|a].
  - apply (Hmid (handler e w1)). apply (Hh e w1).
  - apply (Hmid (inr a, w1, [])). simpl. split; [apply R_refl | reflexivity].
Qed.

End Frame.

Lemma same_candidate_refl (w : World) : same_candidate w w.
Proof. repeat split. Qed.

Lemma same_candidate_trans (a b c : World) :
  same_candidate a b -> same_candidate b c -> same_candidate a c.
Proof.
  unfold same_candidate. intros (?&?&?&?&?) (?&?&?&?&?).
  repeat split; congruence.
Qed.

Create HintDb frame.

Ltac side := solve [eauto with frame].

Ltac frame_step :=
  first
    [ apply stays_ret; side
    | apply stays_throw; side
    | apply stays_get; side
    | apply stays_emit; [side | first [reflexivity | side]]
    | apply stays_bind; [side | | intros ?]
    | apply stays_try_catch_finally; [side | side | | intros ? | ] ].

Section SubmitFrames.

Variable R : World -> World -> Prop.
Variable P : Effect -> bool.
Hypothesis R_refl : forall w, R w w.
Hypothesis R_trans : forall a b c, R a b -> R b c -> R a c.
Hypothesis P_network : forall u m b, P (Fetch u m b) = false.
Hypothesis P_json : P ReadJson = false.
Hypothesis P_goto : forall u, P (Goto u) = false.

Lemma stays_fetch env url method body : stays R P (fetch env url method body).
Proof.
  unfold fetch. frame_step.
  - apply stays_emit; [side | apply P_network].
  - destruct (fetch_outcome env url method body);
      frame_step.
Qed.

Lemma stays_json res : stays R P (json res).
Proof.
  unfold json. frame_step.
  - apply stays_emit; [side | apply P_json].
  - destruct (json_outcome res); frame_step.
Qed.

Lemma stays_goto env url : stays R P (goto env url).
Proof.
  unfold goto. frame_step.
  - apply stays_emit; [side | apply P_goto].
  - destruct (goto_outcome env url); frame_step.
Qed.

Lemma stays_read_property env data k : stays R P (read_property env data k).
Proof. destruct data; frame_step. Qed.

Lemma stays_String_of env v : stays R P (String_of env v).
Proof. unfold String_of. destruct (ToString v); frame_step. Qed.

Lemma stays_new_URLSearchParams env init : stays R P (new_URLSearchParams env init).
Proof.
  induction init as [|[k v] rest IH]; simpl.
  - frame_step.
  - frame_step; [apply stays_String_of|]. frame_step; [exact IH|]. frame_step.
Qed.

Lemma stays_request env (f : File) : stays R P (request env f).
Proof.
  unfold request.
  frame_step; [apply stays_fetch|].
  match goal with |- context [negb (ok ?r)] => destruct (negb (ok r)) end; [frame_step|].
  frame_step; [apply stays_json|].
  frame_step; [apply stays_read_property|].
  frame_step; [apply stays_read_property|].
  frame_step; [apply stays_String_of|].
  frame_step; [apply stays_read_property|].
  frame_step; [apply stays_new_URLSearchParams|].
  apply stays_goto.
Qed.

End SubmitFrames.

(** ** submit: what it leaves alone *)

Lemma stays_candidate_assign_error (msg : string) :
  stays same_candidate touches_candidate (assign_error msg).
Proof. intros w. split; [repeat split | reflexivity]. Qed.

Lemma stays_candidate_assign_uploading (b : bool) :
  stays same_candidate touches_candidate (assign_uploading b).
Proof. intros w. split; [repeat split | reflexivity]. Qed.

#[local] Hint Resolve same_candidate_refl same_candidate_trans : frame.

Lemma submit_stays_candidate (env : Env) :
  stays same_candidate touches_candidate (submit env).
Proof.
  unfold submit.
  frame_step; [apply stays_candidate_assign_error|].
  frame_step; [frame_step|].
  match goal with |- context [file ?w] => destruct (file w) end.
  - frame_step; [apply stays_candidate_assign_uploading|].
    frame_step.
    + apply stays_request; eauto with frame.
    + apply stays_candidate_assign_error.
    + apply stays_candidate_assign_uploading.
  - apply stays_candidate_assign_error.
Qed.

(** [submit] settles normally on every path: the handler catches whatever
    the request throws, and neither the handler nor the cleanup throws. *)
Lemma submit_returns (env : Env) (w : World) : result_of (submit env) w = inr tt.
Proof.
  unfold result_of, submit, bind, get, try_catch_finally,
    assign_error, assign_uploading.
  run_script. destruct (file w); run_script; [|reflexivity].
  match goal with
  | |- context [request ?e ?f ?w] => destruct (request e f w) as [[[x|[]] w1] t1]
  end; reflexivity.
Qed.

(** C10: on every path [submit] leaves the Candidate File and the Preview
    Handle as they were at entry: [file], [previewUrl] and the blob URL
    store are unchanged, no effect assigns [file] or [previewUrl] or
    creates or revokes an object URL, and the call settles normally, so
    that only [error] and [uploading] can differ afterwards. *)
Theorem submit_keeps_candidate (env : Env) (w : World) :
  file (world_after (submit env) w) = file w
  /\ previewUrl (world_after (submit env) w) = previewUrl w
  /\ blobStore (world_after (submit env) w) = blobStore w
  /\ dragActive (world_after (submit env) w) = dragActive w
  /\ fileInput (world_after (submit env) w) = fileInput w
  /\ filter touches_candidate (effects_of (submit env) w) = []
  /\ result_of (submit env) w = inr tt.
Proof.
  destruct (submit_stays_candidate env w) as [(Hf & Hp & Hb & Hd & Hi) Ht].
  repeat split; try assumption. apply submit_returns.
Qed.

(** ** submit: the Submission State *)

Lemma same_uploading_refl (w : World) : same_uploading w w.
Proof. reflexivity. Qed.

Lemma same_uploading_trans (a b c : World) :
  same_uploading a b -> same_uploading b c -> same_uploading a c.
Proof. unfold same_uploading. congruence. Qed.

#[local] Hint Resolve same_uploading_refl same_uploading_trans : frame.

Lemma stays_uploading_assign_error (msg : string) :
  stays same_uploading is_uploading_write (assign_error msg).
Proof. intros w. split; reflexivity. Qed.

Lemma uploading_writes_app (a b : list Effect) :
  uploading_writes (a ++ b) = (uploading_writes a ++ uploading_writes b)%list.
Proof.
  induction a as [|e a IH]; [reflexivity|].
  destruct e; simpl; rewrite IH; reflexivity.
Qed.

Lemma uploading_writes_none (t : list Effect) :
  filter is_uploading_write t = [] -> uploading_writes t = [].
Proof.
  induction t as [|e t IH]; [reflexivity|].
  destruct e; simpl; auto; discriminate.
Qed.

(** With a file set, the effects of [submit] are the clearing of the error,
    the entry into Uploading, whatever the request and the handler do
    (which never assigns [uploading]), and last the return to Idle. *)
Lemma submit_shape (env : Env) (w : World) (f : File) :
  file w = Some f ->
  exists t,
    effects_of (submit env) w
    = (SetError "" :: SetUploading true :: t ++ [SetUploading false])%list
    /\ filter is_uploading_write t = []
    /\ uploading (world_after (submit env) w) = false.
Proof.
  intros Hf.
  unfold effects_of, world_after.
  unfold submit, bind, get, try_catch_finally. run_script. rewrite Hf. run_script.
  match goal with
  | |- context [request env f ?x] =>
      pose proof (stays_request same_uploading is_uploading_write
                    same_uploading_refl same_uploading_trans
                    (fun _ _ _ => eq_refl) eq_refl (fun _ => eq_refl) env f x) as Hbody;
      unfold effects_of, world_after in Hbody;
      destruct (request env f x) as [[[e|[]] w2] t2]
  end; run_script; simpl in Hbody; destruct Hbody as [_ Hbody].
  - exists (t2 ++ [SetError match message e with
                            | Some m => m
                            | None => msg_upload_failed
                            end])%list.
    split; [|split].
    + rewrite <- app_assoc. reflexivity.
    + rewrite filter_app, Hbody. reflexivity.
    + reflexivity.
  - exists t2. split; [|split].
    + reflexivity.
    + exact Hbody.
    + reflexivity.
Qed.





(** ** The Preview Handle *)

Lemma remove_self (u : string) : remove string_dec u [u] = [].
Proof. simpl. destruct (string_dec u u); [reflexivity | congruence]. Qed.

Lemma replay_app (store : list string) (a b : list Effect) :
  replay store (a ++ b) = replay (replay store a) b.
Proof. apply fold_left_app. Qed.

Lemma store_history_app (Q : list string -> Prop) (store : list string) (a b : list Effect) :
  Forall Q (store_history store a) ->
  Forall Q (store_history (replay store a) b) ->
  Forall Q (store_history store (a ++ b)).
Proof.
  revert store. induction a as [|e a IH]; intros store Ha Hb; simpl in *.
  - exact Hb.
  - inversion Ha; subst. constructor; [assumption|]. apply IH; assumption.
Qed.

(** Effects that leave the Candidate File alone leave the store alone. *)
Lemma untouched_store (Q : list string -> Prop) (store : list string) (t : list Effect) :
  filter touches_candidate t = [] -> Q store ->
  replay store t = store /\ Forall Q (store_history store t).
Proof.
  intros Ht HQ. induction t as [|e t IH]; simpl.
  - split; [reflexivity | constructor; [exact HQ | constructor]].
  - simpl in Ht. destruct e; simpl in *; try discriminate;
      (destruct (IH Ht) as [IH1 IH2]; split; [exact IH1 | constructor; assumption]).
Qed.

Ltac split_preview w :=
  let Hi := fresh "Hi" in
  intros Hi; unfold handle_inv, call_ok, world_after, effects_of, at_most_one in *;
  destruct w as [f0 [u0|] e0 up0 d0 i0 store]; simpl in Hi;
  [ destruct Hi as [Hne ->]; destruct u0 as [|c0 u0]; [congruence|] | subst store ].

Ltac close_call :=
  run_script; rewrite ?remove_self;
  repeat split; try discriminate; try reflexivity;
  repeat constructor.

Lemma reset_ok (w : World) : handle_inv w -> call_ok reset w.
Proof.
  split_preview w; unfold reset, revoke_preview, bind, get; close_call.
Qed.

Ltac validate_cases c :=
  let f := fresh "f" in
  let A := fresh "A" in
  let B := fresh "B" in
  (destruct c as [f|]; [|close_call]);
  (destruct (Array_includes ACCEPT (type f)) eqn:A; run_script; rewrite ?A;
   [|close_call]);
  (destruct (MAX_SIZE_MB * 1024 * 1024 <? size f)%N eqn:B; run_script; rewrite ?B;
   close_call).

Lemma validateAndSet_ok (env : Env) (c : option File) (w : World) :
  handle_inv w -> call_ok (validateAndSet env c) w.
Proof.
  split_preview w; unfold validateAndSet, revoke_preview, bind, get;
    validate_cases c.
Qed.

Lemma onDrop_ok (env : Env) (e : DragEvent) (w : World) :
  handle_inv w -> call_ok (onDrop env e) w.
Proof.
  unfold onDrop.
  generalize (match dataTransfer e with
              | Some dt => first_file (transfer_files dt)
              | None => None
              end).
  intros c.
  split_preview w; unfold validateAndSet, revoke_preview, bind, get;
    validate_cases c.
Qed.

Lemma submit_ok (env : Env) (w : World) : handle_inv w -> call_ok (submit env) w.
Proof.
  intros Hi. destruct (submit_stays_candidate env w) as [(Hf & Hp & Hb & _) Ht].
  assert (H1 : at_most_one (blobStore w)).
  { unfold handle_inv in Hi. unfold at_most_one.
    destruct (previewUrl w); [destruct Hi as [_ ->] | rewrite Hi]; simpl; lia. }
  destruct (untouched_store at_most_one (blobStore w) _ Ht H1) as [Hr Hh].
  unfold call_ok. repeat split.
  - unfold handle_inv. rewrite Hp, Hb. exact Hi.
  - rewrite Hr. exact Hb.
  - exact Hh.
Qed.

Lemma exec_ok (env : Env) (c : Call) (w : World) :
  handle_inv w -> call_ok (exec env c) w.
Proof.
  destruct c; simpl.
  - split_preview w; unfold bind_input; close_call.
  - split_preview w; unfold openFileDialog, bind, get; destruct i0; close_call.
  - apply reset_ok.
  - apply validateAndSet_ok.
  - apply onDrop_ok.
  - split_preview w; unfold onDragOver, bind; close_call.
  - split_preview w; unfold onDragLeave; close_call.
  - apply submit_ok.
Qed.

Lemma run_ok (session : list (Env * Call)) (w : World) :
  handle_inv w ->
  handle_inv (fst (run session w))
  /\ blobStore (fst (run session w)) = replay (blobStore w) (snd (run session w))
  /\ Forall at_most_one (store_history (blobStore w) (snd (run session w))).
Proof.
  revert w. induction session as [|[env c] rest IH]; intros w Hi; simpl.
  - repeat split; try assumption.
    constructor; [|constructor].
    unfold handle_inv in Hi. unfold at_most_one.
    destruct (previewUrl w); [destruct Hi as [_ ->] | rewrite Hi]; simpl; lia.
  - destruct (exec_ok env c w Hi) as (H1 & H2 & H3).
    unfold world_after, effects_of in *.
    destruct (exec env c w) as [[r w1] t1]. simpl in *.
    destruct (IH w1 H1) as (K1 & K2 & K3).
    destruct (run rest w1) as [w2 t2]. simpl in *.
    repeat split.
    + exact K1.
    + rewrite replay_app, <- H2. exact K2.
    + apply store_history_app; [exact H3 | rewrite <- H2; exact K3].
Qed.

Lemma initial_inv : handle_inv initial.
Proof. reflexivity. Qed.

(** C3: in every session, started from the page as loaded, the blob URL
    store holds at most one object URL at entry and after every single
    effect of every handler, and what it holds is what [previewUrl] holds.
    An accepted candidate revokes every live URL before the new one is
    created, so that the store then holds exactly the new URL, which is the
    one assigned to [previewUrl]; [reset] revokes every live URL and leaves
    the store empty and [previewUrl] null. *)
Theorem single_live_preview (session : list (Env * Call)) (env : Env) (f : File) :
  accepted f = true ->
  let w := fst (run session initial) in
  let t := snd (run session initial) in
  Forall at_most_one (store_history [] t)
  /\ blobStore w = replay [] t
  /\ handle_inv w
  /\ (exists u,
         effects_of (validateAndSet env (Some f)) w
         = ([SetError ""; SetFile (Some f)] ++ map RevokeObjectURL (blobStore w)
            ++ [CreateObjectURL f u; SetPreviewUrl (Some u)])%list
         /\ blobStore (world_after (validateAndSet env (Some f)) w) = [u]
         /\ previewUrl (world_after (validateAndSet env (Some f)) w) = Some u)
  /\ Forall at_most_one
       (store_history (blobStore w) (effects_of (validateAndSet env (Some f)) w))
  /\ effects_of reset w
     = ([SetError ""; SetFile None] ++ map RevokeObjectURL (blobStore w)
        ++ [SetPreviewUrl None])%list
  /\ blobStore (world_after reset w) = []
  /\ previewUrl (world_after reset w) = None
  /\ Forall at_most_one (store_history (blobStore w) (effects_of reset w)).
Proof.
  intros Hacc w t. subst w t.
  destruct (run_ok session initial initial_inv) as (Hi & Hs & Hh).
  change (blobStore initial) with (@nil string) in *.
  destruct (run session initial) as [w t]. simpl in *.
  split; [exact Hh|]. split; [exact Hs|]. split; [exact Hi|].
  clear Hs Hh.
  pose proof (validateAndSet_ok env (Some f) w Hi) as (_ & _ & Hv).
  pose proof (reset_ok w Hi) as (_ & _ & Hr).
  cut ((exists u,
         effects_of (validateAndSet env (Some f)) w
         = ([SetError ""; SetFile (Some f)] ++ map RevokeObjectURL (blobStore w)
            ++ [CreateObjectURL f u; SetPreviewUrl (Some u)])%list
         /\ blobStore (world_after (validateAndSet env (Some f)) w) = [u]
         /\ previewUrl (world_after (validateAndSet env (Some f)) w) = Some u)
       /\ effects_of reset w
          = ([SetError ""; SetFile None] ++ map RevokeObjectURL (blobStore w)
             ++ [SetPreviewUrl None])%list
       /\ blobStore (world_after reset w) = []
       /\ previewUrl (world_after reset w) = None).
  { intros (K1 & K2 & K3 & K4). repeat split; assumption. }
  clear Hv Hr.
  unfold accepted in Hacc. apply andb_true_iff in Hacc. destruct Hacc as [A B].
  apply negb_true_iff in B.
  unfold handle_inv, world_after, effects_of in *.
  destruct w as [f0 [u0|] e0 up0 d0 i0 store]; simpl in Hi;
    [ destruct Hi as [Hne ->]; destruct u0 as [|c0 u0]; [congruence|] | subst store ].
  - split; [exists ("blob:" ++ object_url_id env f)|];
      unfold validateAndSet, reset, revoke_preview, bind, get;
      run_script; rewrite ?A; run_script; rewrite ?B; run_script;
      rewrite ?remove_self; repeat split.
  - split; [exists ("blob:" ++ object_url_id env f)|];
      unfold validateAndSet, reset, revoke_preview, bind, get;
      run_script; rewrite ?A; run_script; rewrite ?B; run_script;
      repeat split.
Qed.

Lemma single_live_preview_witness :
  accepted png_2MB = true
  /\ blobStore (world_after (validateAndSet env_500 (Some png_2MB))
                  (fst (run [(env_500, OnPick (mkInput (Some [png_2MB])));
                             (env_500, OnDrop (mkDragEvent (Some (mkDataTransfer (Some [jpeg_12MB])))))]
                            initial)))
     = ["blob:http://localhost:5173/wall.png"].
Proof.
  split; [reflexivity|].
  pose proof (single_live_preview
                [(env_500, OnPick (mkInput (Some [png_2MB])));
                 (env_500, OnDrop (mkDragEvent (Some (mkDataTransfer (Some [jpeg_12MB])))))]
                env_500 png_2MB eq_refl) as H.
  cbv zeta in H.
  destruct H as (_ & _ & _ & (u & _ & Hu & Hp) & _).
  rewrite Hu. clear Hu.
  vm_compute in Hp. injection Hp as <-. reflexivity.
Defined.

(** ** submit: the outcome of the request *)

Ltac run_submit :=
  unfold world_after, effects_of, result_of, submit, request, bind, get,
    try_catch_finally, fetch, json, goto, emit, throw, ret;
  run_script.

(** C6: when the service answers with a status outside 200-299, the Error
    Message is HTTP followed by the status (so it is not empty and contains
    the status), the body is never read, and [goto] is never called. *)
Theorem submit_http_failure (env : Env) (w : World) (f : File) (res : Response) :
  file w = Some f ->
  fetch_outcome env (PUBLIC_API_BASE env ++ "/predict") "POST" [("file", f)]
  = FetchResolves res ->
  ok res = false ->
  error (world_after (submit env) w) = "HTTP " ++ N_toString (status res)
  /\ error (world_after (submit env) w) <> ""
  /\ String_includes (N_toString (status res)) (error (world_after (submit env) w)) = true
  /\ filter is_json_read (effects_of (submit env) w) = []
  /\ navigations (effects_of (submit env) w) = []
  /\ effects_of (submit env) w
     = [SetError ""; SetUploading true;
        Fetch (PUBLIC_API_BASE env ++ "/predict") "POST" [("file", f)];
        SetError ("HTTP " ++ N_toString (status res)); SetUploading false].
Proof.
  intros Hf Hfetch Hok.
  run_submit. rewrite Hf. run_script. rewrite Hfetch. run_script.
  rewrite Hok. run_script.
  repeat split; try reflexivity; try discriminate.
  apply (String_includes_suffix "HTTP ").
Qed.

Lemma submit_http_failure_witness :
  file with_png = Some png_2MB
  /\ ok (mkResponse 500 (JsonResolves JNull)) = false
  /\ error (world_after (submit env_500) with_png) = "HTTP 500".
Proof.
  split; [reflexivity|]. split; [reflexivity|].
  apply (submit_http_failure env_500 with_png png_2MB
           (mkResponse 500 (JsonResolves JNull))); reflexivity.
Defined.

(** C7: when the service answers a success status with the body
    [{label: "crack", prob: 0.87, request_id: "abc123"}], [goto] is called
    exactly once, with [/result?label=crack&prob=0.87&id=abc123]. *)
Theorem submit_crack_navigation (env : Env) (w : World) (f : File) (res : Response) :
  file w = Some f ->
  fetch_outcome env (PUBLIC_API_BASE env ++ "/predict") "POST" [("file", f)]
  = FetchResolves res ->
  ok res = true ->
  json_outcome res = JsonResolves crack_payload ->
  navigations (effects_of (submit env) w)
  = ["/result?" ++ "label=crack&prob=0.87&id=abc123"].
Proof.
  intros Hf Hfetch Hok Hjson.
  run_submit. rewrite Hf. run_script. rewrite Hfetch. run_script.
  rewrite Hok. run_script. rewrite Hjson.
  unfold crack_payload, String_of, bind, ret, throw. cbn.
  match goal with
  | |- context [goto_outcome env ?u] => destruct (goto_outcome env u)
  end; reflexivity.
Qed.

Lemma submit_crack_navigation_witness :
  file with_png = Some png_2MB
  /\ ok (mkResponse 200 (JsonResolves crack_payload)) = true
  /\ navigations
       (effects_of (submit (env_answering (mkResponse 200 (JsonResolves crack_payload))))
          with_png)
     = ["/result?label=crack&prob=0.87&id=abc123"].
Proof.
  split; [reflexivity|]. split; [reflexivity|].
  apply (submit_crack_navigation
           (env_answering (mkResponse 200 (JsonResolves crack_payload)))
           with_png png_2MB (mkResponse 200 (JsonResolves crack_payload)));
    reflexivity.
Defined.

(** C8, as stated, fails: a 200 response whose body is [null] has none of
    the three fields, and reading [data.label] throws; the handler shows the
    engine's message and [goto] is not called. *)
Lemma submit_null_body_no_navigation :
  ok response_null = true
  /\ navigations (effects_of (submit (env_answering response_null)) with_png) = []
  /\ error (world_after (submit (env_answering response_null)) with_png)
     = "Cannot read properties of null (reading 'label')".
Proof. repeat split. Qed.

(** A 200 response whose body does not parse as JSON blocks navigation
    too. *)
Lemma submit_unparsable_body_no_navigation :
  let res := mkResponse 200 (JsonRejects (Error "Unexpected token < in JSON")) in
  ok res = true
  /\ navigations (effects_of (submit (env_answering res)) with_png) = []
  /\ error (world_after (submit (env_answering res)) with_png)
     = "Unexpected token < in JSON".
Proof. repeat split. Qed.

(** And so does a field that is an object with a [toString] member, which
    has no string form. *)
Lemma submit_unprintable_field_no_navigation :
  let res := mkResponse 200
               (JsonResolves (JObj [("label", JObj [("toString", JNum (Zero false))])])) in
  ok res = true
  /\ navigations (effects_of (submit (env_answering res)) with_png) = []
  /\ error (world_after (submit (env_answering res)) with_png)
     = "Cannot convert object to primitive value".
Proof. repeat split. Qed.

Lemma field_text_missing (data : Json) (k : string) :
  property data k = None \/ property data k = Some JNull ->
  field_text data k = "".
Proof.
  unfold field_text, field_value. intros [-> | ->]; reflexivity.
Qed.

Lemma printable_field (data : Json) :
  printable data = true ->
  ToString (field_value data "label") = Some (field_text data "label")
  /\ ToString (field_value data "prob") = Some (field_text data "prob")
  /\ ToString (field_value data "request_id") = Some (field_text data "request_id").
Proof.
  unfold printable, field_text. simpl.
  destruct (ToString (field_value data "label")); [|discriminate].
  destruct (ToString (field_value data "prob")); [|discriminate].
  destruct (ToString (field_value data "request_id")); [|discriminate].
  repeat split.
Qed.

Lemma ToString_primitive (v : Json) :
  is_primitive v = true -> exists s, ToString v = Some s.
Proof. destruct v; simpl; try discriminate; eauto. Qed.

(** A body whose three fields are missing, [null] or primitive is
    printable. *)
Lemma printable_primitives (data : Json) :
  (forall k v, In k ["label"; "prob"; "request_id"] ->
               property data k = Some v -> is_primitive v = true) ->
  printable data = true.
Proof.
  intros H. unfold printable, field_value. simpl.
  assert (K : forall k, In k ["label"; "prob"; "request_id"] ->
                        exists s, ToString (nullish (property data k) (JStr "")) = Some s).
  { intros k Hk. destruct (property data k) as [v|] eqn:E; [|simpl; eauto].
    destruct (ToString_primitive v (H k v Hk E)) as [s Hs].
    destruct v; simpl in *; eauto. }
  destruct (K "label") as [? ->]; [simpl; auto|].
  destruct (K "prob") as [? ->]; [simpl; auto|].
  destruct (K "request_id") as [? ->]; [simpl; auto|].
  reflexivity.
Qed.

Lemma read_property_nonnull (env : Env) (data : Json) (k : string) :
  data <> JNull -> read_property env data k = ret (property data k).
Proof. destruct data; try reflexivity. congruence. Qed.

Lemma String_of_some (env : Env) (v : Json) (s : string) (w : World) :
  ToString v = Some s -> String_of env v w = (inr s, w, []).
Proof. unfold String_of. intros ->. reflexivity. Qed.

(** The [try] block on a 200 response with a printable body: one fetch,
    one read of the body, one call of [goto]. *)
Lemma request_success (env : Env) (w : World) (f : File) (res : Response) (data : Json) :
  fetch_outcome env (PUBLIC_API_BASE env ++ "/predict") "POST" [("file", f)]
  = FetchResolves res ->
  ok res = true ->
  json_outcome res = JsonResolves data ->
  data <> JNull ->
  printable data = true ->
  let url := "/result?" ++ URLSearchParams_toString
                             [("label", field_text data "label");
                              ("prob", field_text data "prob");
                              ("id", field_text data "request_id")] in
  request env f w
  = (match goto_outcome env url with Some e => inl e | None => inr tt end,
     w,
     [Fetch (PUBLIC_API_BASE env ++ "/predict") "POST" [("file", f)];
      ReadJson; Goto url]).
Proof.
  intros Hfetch Hok Hjson Hnull Hp url. subst url.
  destruct (printable_field data Hp) as (Hl & Hpr & Hi).
  unfold field_value in Hl, Hpr, Hi.
  unfold request, fetch, json, goto, emit.
  unfold bind at 1 2. run_script. rewrite Hfetch. run_script.
  rewrite Hok. run_script. rewrite Hjson.
  unfold bind, ret. run_script.
  rewrite !(read_property_nonnull env data _ Hnull).
  unfold ret. run_script.
  rewrite (String_of_some env _ _ w Hpr).
  rewrite (String_of_some env _ _ w Hl).
  rewrite (String_of_some env (JStr _) _ w eq_refl).
  rewrite (String_of_some env _ _ w Hi).
  run_script.
  match goal with
  | |- context [goto_outcome env ?u] => destruct (goto_outcome env u)
  end; reflexivity.
Qed.

(** ** The query string round trip *)

Lemma has_char_app (c : ascii) (a b : string) :
  has_char c (a ++ b) = has_char c a || has_char c b.
Proof.
  induction a as [|x a IH]; simpl; [reflexivity|].
  rewrite IH. apply orb_assoc.
Qed.

Lemma urlencode_byte_clean (sep c : ascii) :
  is_delimiter sep = true -> has_char sep (urlencode_byte c) = false.
Proof.
  unfold is_delimiter. intros H.
  repeat (apply orb_true_iff in H; destruct H as [H|H]);
    apply Ascii.eqb_eq in H; subst sep;
    destruct c as [[] [] [] [] [] [] [] []]; reflexivity.
Qed.

Lemma urlencode_clean (sep : ascii) (s : string) :
  is_delimiter sep = true -> has_char sep (urlencode s) = false.
Proof.
  intros H. induction s as [|c s IH]; simpl; [reflexivity|].
  rewrite has_char_app, (urlencode_byte_clean sep c H), IH. reflexivity.
Qed.

Lemma urldecode_byte (c : ascii) (t : string) :
  urldecode (urlencode_byte c ++ t) = String c (urldecode t).
Proof.
  destruct t as [|h [|l r]];
    destruct c as [[] [] [] [] [] [] [] []]; reflexivity.
Qed.

Lemma urldecode_urlencode (s : string) : urldecode (urlencode s) = s.
Proof.
  induction s as [|c s IH]; [reflexivity|].
  simpl urlencode. rewrite urldecode_byte, IH. reflexivity.
Qed.

Lemma cut_at_absent (sep : ascii) (s : string) :
  has_char sep s = false -> cut_at sep s = (s, None).
Proof.
  induction s as [|c s IH]; simpl; [reflexivity|].
  intros H. apply orb_false_iff in H. destruct H as [H1 H2].
  rewrite H1, (IH H2). reflexivity.
Qed.

Lemma cut_at_first (sep : ascii) (a b : string) :
  has_char sep a = false ->
  cut_at sep (a ++ String sep b) = (a, Some b).
Proof.
  induction a as [|c a IH]; simpl.
  - intros _. rewrite Ascii.eqb_refl. reflexivity.
  - intros H. apply orb_false_iff in H. destruct H as [H1 H2].
    rewrite H1, (IH H2). reflexivity.
Qed.

Lemma split_on_absent (sep : ascii) (s : string) :
  has_char sep s = false -> split_on sep s = [s].
Proof.
  induction s as [|c s IH]; simpl; [reflexivity|].
  intros H. apply orb_false_iff in H. destruct H as [H1 H2].
  rewrite H1, (IH H2). reflexivity.
Qed.

Lemma split_on_first (sep : ascii) (a b : string) :
  has_char sep a = false ->
  split_on sep (a ++ String sep b) = a :: split_on sep b.
Proof.
  induction a as [|c a IH]; simpl.
  - intros _. rewrite Ascii.eqb_refl. reflexivity.
  - intros H. apply orb_false_iff in H. destruct H as [H1 H2].
    rewrite H1, (IH H2). reflexivity.
Qed.

Lemma split_on_join (sep : ascii) (piece : string) (pieces : list string) :
  Forall (fun p => has_char sep p = false) (piece :: pieces) ->
  split_on sep (join (String sep EmptyString) (piece :: pieces)) = piece :: pieces.
Proof.
  revert piece. induction pieces as [|q pieces IH]; intros piece H.
  - inversion H; subst. simpl. apply split_on_absent. assumption.
  - inversion H; subst.
    change (join (String sep "") (piece :: q :: pieces))
      with (piece ++ String sep (join (String sep "") (q :: pieces))).
    rewrite split_on_first by assumption.
    rewrite IH by assumption. reflexivity.
Qed.

Lemma pair_text_clean (sep : ascii) (p : string * string) :
  Ascii.eqb sep "&" || Ascii.eqb sep "#" = true ->
  has_char sep (pair_text p) = false.
Proof.
  intros H. unfold pair_text.
  assert (D : is_delimiter sep = true).
  { apply orb_true_iff in H.
    destruct H as [H|H]; apply Ascii.eqb_eq in H; subst sep; reflexivity. }
  rewrite has_char_app, (urlencode_clean sep _ D).
  simpl. rewrite (urlencode_clean sep _ D).
  apply orb_true_iff in H. destruct H as [H|H];
    apply Ascii.eqb_eq in H; subst sep; reflexivity.
Qed.

Lemma parse_pair_text (p : string * string) : parse_pair (pair_text p) = p.
Proof.
  destruct p as [k v]. unfold parse_pair, pair_text. simpl fst. simpl snd.
  change (urlencode k ++ "=" ++ urlencode v)
    with (urlencode k ++ String "=" (urlencode v)).
  rewrite cut_at_first by (apply urlencode_clean; reflexivity).
  rewrite !urldecode_urlencode. reflexivity.
Qed.

Lemma pair_text_nonempty (p : string * string) :
  negb (String.eqb (pair_text p) EmptyString) = true.
Proof.
  unfold pair_text. destruct (urlencode (fst p)); reflexivity.
Qed.

(** The parser reads back exactly the pairs the serializer wrote. *)
Theorem URLSearchParams_roundtrip (params : URLSearchParams) :
  URLSearchParams_parse (URLSearchParams_toString params) = params.
Proof.
  unfold URLSearchParams_parse, URLSearchParams_toString.
  change (fun p : string * string => urlencode (fst p) ++ "=" ++ urlencode (snd p))
    with pair_text.
  destruct params as [|p params]; [reflexivity|].
  simpl map at 2.
  rewrite split_on_join.
  - assert (F : forall l, filter (fun piece => negb (String.eqb piece EmptyString))
                            (map pair_text l) = map pair_text l).
    { induction l as [|x l IH]; simpl; [reflexivity|].
      rewrite pair_text_nonempty, IH. reflexivity. }
    change (pair_text p :: map pair_text params) with (map pair_text (p :: params)).
    rewrite F, map_map.
    rewrite <- (map_id (p :: params)) at 2.
    apply map_ext. intros x. apply parse_pair_text.
  - change (pair_text p :: map pair_text params) with (map pair_text (p :: params)).
    apply Forall_forall. intros x Hx. apply in_map_iff in Hx.
    destruct Hx as (y & <- & _). apply pair_text_clean. reflexivity.
Qed.

Lemma URLSearchParams_toString_clean (params : URLSearchParams) :
  has_char "#" (URLSearchParams_toString params) = false.
Proof.
  unfold URLSearchParams_toString.
  change (fun p : string * string => urlencode (fst p) ++ "=" ++ urlencode (snd p))
    with pair_text.
  induction params as [|p params IH]; [reflexivity|].
  destruct params as [|q params].
  - simpl. apply pair_text_clean. reflexivity.
  - change (join "&" (map pair_text (p :: q :: params)))
      with (pair_text p ++ String "&" (join "&" (map pair_text (q :: params)))).
    rewrite has_char_app. rewrite pair_text_clean by reflexivity.
    simpl has_char at 1. simpl in IH. rewrite IH. reflexivity.
Qed.

(** What the result route reads is what [submit] put in the query. *)
Theorem handoff_roundtrip (params : URLSearchParams) :
  searchParams (URL_of_href ("/result?" ++ URLSearchParams_toString params)) = params.
Proof.
  unfold URL_of_href.
  rewrite (cut_at_absent "#").
  - simpl. apply URLSearchParams_roundtrip.
  - rewrite has_char_app, URLSearchParams_toString_clean. reflexivity.
Qed.

(** [load] after the handoff: the label comes back as sent, and [prob] is
    [parseFloat] of the text sent. *)
Theorem load_after_handoff (label_text prob_text id_text : string) :
  load (URL_of_href ("/result?" ++ URLSearchParams_toString
                                     [("label", label_text);
                                      ("prob", prob_text);
                                      ("id", id_text)]))
  = mkPageData label_text (parseFloat prob_text).
Proof. unfold load. rewrite handoff_roundtrip. reflexivity. Qed.

(** A field that is missing or [null] in the response reaches [load] as the
    empty text, which [parseFloat] reads as NaN. *)
Corollary load_missing_prob (data : Json) :
  property data "prob" = None \/ property data "prob" = Some JNull ->
  load (URL_of_href ("/result?" ++ URLSearchParams_toString
                                     [("label", field_text data "label");
                                      ("prob", field_text data "prob");
                                      ("id", field_text data "request_id")]))
  = mkPageData (field_text data "label") NaN.
Proof.
  intros H. rewrite load_after_handoff, (field_text_missing data "prob" H).
  reflexivity.
Qed.

(** ** The handoff to the result view *)

(** C9 fails on the code: a response without [prob] is handed over as
    [prob=] (present and empty), [load] finds the parameter, does not apply
    its default "0", and [parseFloat] of the empty string is NaN, not 0;
    only a URL with no [prob] parameter at all decodes to 0.  This is so
    whatever the label and the id are. *)
Theorem missing_prob_decodes_to_NaN :
  navigations (effects_of (submit (env_answering response_without_prob)) with_png)
  = ["/result?label=crack&prob=&id=abc123"]
  /\ URLSearchParams_get "prob"
       (searchParams (URL_of_href "/result?label=crack&prob=&id=abc123")) = Some ""
  /\ load (URL_of_href "/result?label=crack&prob=&id=abc123") = mkPageData "crack" NaN
  /\ prob (load (URL_of_href "/result?label=crack&prob=&id=abc123")) <> Zero false
  /\ load (URL_of_href "/result?label=crack&id=abc123") = mkPageData "crack" (Zero false)
  /\ (forall label_text id_text,
        load (URL_of_href ("/result?" ++ URLSearchParams_toString
                                           [("label", label_text);
                                            ("prob", "");
                                            ("id", id_text)]))
        = mkPageData label_text NaN).
Proof.
  repeat split; try discriminate.
  intros l i. apply load_after_handoff.
Qed.

(** * Further properties of the script *)

(** ** reset *)

(** X1: [reset] is idempotent from every world: a second call changes
    nothing and revokes nothing.  After one call the error is empty, no
    file is chosen, no preview is held, and the (non-empty) URL that was
    held is no longer in the blob URL store. *)
Theorem reset_idempotent (w : World) :
  world_after reset (world_after reset w) = world_after reset w
  /\ filter touches_candidate (effects_of reset (world_after reset w))
     = [SetFile None; SetPreviewUrl None]
  /\ error (world_after reset w) = ""
  /\ file (world_after reset w) = None
  /\ previewUrl (world_after reset w) = None
  /\ (forall u, previewUrl w = Some u -> u <> "" ->
                ~ In u (blobStore (world_after reset w)))
  /\ uploading (world_after reset w) = uploading w.
Proof.
  unfold world_after, effects_of, reset, revoke_preview, bind, get.
  destruct w as [f0 [[|c u]|] e0 up0 d0 i0 store]; run_script;
    repeat split; try reflexivity; intros u' H Hne; inversion H; subst;
    [congruence | apply remove_In].
Qed.

(** ** validateAndSet *)

(** X2: the verdict of [validateAndSet] on a candidate: the Error Message
    is empty afterwards exactly when the type is one of the three accepted
    ones and the size is at most 10 MiB (10485760 bytes, inclusive).  Then
    the candidate is the Candidate File and a fresh blob URL is the
    preview; otherwise [file] and [previewUrl] are as before. *)
Theorem validateAndSet_verdict (env : Env) (w : World) (f : File) :
  let w' := world_after (validateAndSet env (Some f)) w in
  (error w' = "" <->
   In (type f) ["image/jpeg"; "image/png"; "image/webp"] /\ (size f <= 10485760)%N)
  /\ (error w' = "" ->
      file w' = Some f /\ previewUrl w' = Some ("blob:" ++ object_url_id env f)
      /\ In ("blob:" ++ object_url_id env f) (blobStore w'))
  /\ (error w' <> "" -> file w' = file w /\ previewUrl w' = previewUrl w
                        /\ blobStore w' = blobStore w)
  /\ uploading w' = uploading w.
Proof.
  intros w'. subst w'.
  assert (HA : Array_includes ACCEPT (type f) = true
               <-> In (type f) ["image/jpeg"; "image/png"; "image/webp"]).
  { unfold Array_includes, ACCEPT. rewrite existsb_exists. split.
    - intros (x & Hx & E). apply String.eqb_eq in E. subst x. exact Hx.
    - intros H. exists (type f). split; [exact H | apply String.eqb_refl]. }
  assert (HB : (MAX_SIZE_MB * 1024 * 1024 <? size f)%N = false
               <-> (size f <= 10485760)%N).
  { change (MAX_SIZE_MB * 1024 * 1024)%N with 10485760%N.
    rewrite N.ltb_ge. reflexivity. }
  unfold world_after, validateAndSet, revoke_preview, bind, get. run_script.
  destruct (Array_includes ACCEPT (type f)) eqn:A; run_script.
  - destruct (MAX_SIZE_MB * 1024 * 1024 <? size f)%N eqn:B; run_script.
    + repeat split; try discriminate; try (intros; congruence).
      intros [_ H]. apply HB in H. discriminate.
    + destruct w as [f0 [[|c u]|] e0 up0 d0 i0 store]; run_script;
        (repeat split; try reflexivity; try congruence;
         try (apply HA; reflexivity); try (apply HB; reflexivity);
         try (apply in_or_app; right; left; reflexivity)).
  - repeat split; try discriminate; try (intros; congruence).
    intros [H _]. apply HA in H. discriminate.
Qed.

(** ** onPick and onDrop *)

(** X3: an empty selection ([files] null or an empty list) only clears the
    Error Message: the Candidate File, the preview and everything else
    stay, and the only effect is that assignment. *)
Theorem onPick_empty_selection (env : Env) (t : HTMLInputElement) (w : World) :
  files t = None \/ files t = Some [] ->
  world_after (onPick env t) w = with_error w ""
  /\ effects_of (onPick env t) w = [SetError ""]
  /\ result_of (onPick env t) w = inr tt.
Proof.
  intros H. unfold world_after, effects_of, result_of, onPick.
  destruct H as [-> | ->]; repeat split.
Qed.

Lemma onPick_empty_selection_witness :
  file (world_after (onPick env_500 (mkInput (Some []))) with_png) = Some png_2MB.
Proof.
  pose proof (onPick_empty_selection env_500 (mkInput (Some [])) with_png
                (or_intror eq_refl)) as (H & _).
  rewrite H. reflexivity.
Defined.

(** X4: a drop is a pick of the same file list, after the drag flag is
    cleared and the browser's default action suppressed: whatever files are
    dropped, the world after [onDrop] is the world after [onPick] on those
    files from the world with [dragActive] false, and its effects are
    [preventDefault], [stopPropagation], the clearing of [dragActive], then
    those of [onPick].  A drop without a [dataTransfer] is a pick of
    nothing. *)
Theorem onDrop_is_onPick (env : Env) (e : DragEvent) (w : World) :
  let fs := match dataTransfer e with
            | Some dt => transfer_files dt
            | None => None
            end in
  let w0 := world_after (assign_dragActive false) w in
  world_after (onDrop env e) w = world_after (onPick env (mkInput fs)) w0
  /\ effects_of (onDrop env e) w
     = ([PreventDefault; StopPropagation; SetDragActive false]
        ++ effects_of (onPick env (mkInput fs)) w0)%list
  /\ dragActive (world_after (onDrop env e) w) = false.
Proof.
  intros fs w0. subst fs w0.
  unfold onDrop, onPick.
  assert (E : match dataTransfer e with
              | Some dt => first_file (transfer_files dt)
              | None => None
              end
              = first_file (files (mkInput match dataTransfer e with
                                           | Some dt => transfer_files dt
                                           | None => None
                                           end))).
  { destruct (dataTransfer e); reflexivity. }
  rewrite E. clear E.
  generalize (first_file (files (mkInput match dataTransfer e with
                                         | Some dt => transfer_files dt
                                         | None => None
                                         end))).
  intros c.
  unfold world_after, effects_of, validateAndSet, revoke_preview, bind, get, emit.
  destruct c as [f|]; [|repeat split]. run_script.
  destruct (Array_includes ACCEPT (type f)); run_script; [|repeat split].
  destruct (MAX_SIZE_MB * 1024 * 1024 <? size f)%N; run_script; [repeat split|].
  destruct (previewUrl w) as [[|c0 u0]|]; repeat split.
Qed.

(** ** Computations that do not look at the world *)

Lemma pure_ret {A} (a : A) : pure (ret a).
Proof. exists (inr a), []. reflexivity. Qed.

Lemma pure_throw {A} (e : Exn) : pure (@throw A e).
Proof. exists (inl e), []. reflexivity. Qed.

Lemma pure_emit (e : Effect) : pure (emit e).
Proof. exists (inr tt), [e]. reflexivity. Qed.

Lemma pure_bind {A B} (m : M A) (k : A -> M B) :
  pure m -> (forall a, pure (k a)) -> pure (bind m k).
Proof.
  intros (r & t & Hm) Hk. destruct r as [e|a].
  - exists (inl e), t. intros w. unfold bind. rewrite Hm. reflexivity.
  - destruct (Hk a) as (r' & t' & Hka).
    exists r', (t ++ t')%list. intros w. unfold bind. rewrite Hm, Hka. reflexivity.
Qed.

Lemma pure_fetch env url method body : pure (fetch env url method body).
Proof.
  unfold fetch. apply pure_bind; [apply pure_emit|]. intros _.
  destruct (fetch_outcome env url method body); [apply pure_throw | apply pure_ret].
Qed.

Lemma pure_json res : pure (json res).
Proof.
  unfold json. apply pure_bind; [apply pure_emit|]. intros _.
  destruct (json_outcome res); [apply pure_throw | apply pure_ret].
Qed.

Lemma pure_goto env url : pure (goto env url).
Proof.
  unfold goto. apply pure_bind; [apply pure_emit|]. intros _.
  destruct (goto_outcome env url); [apply pure_throw | apply pure_ret].
Qed.

Lemma pure_read_property env data k : pure (read_property env data k).
Proof. destruct data; simpl; first [apply pure_throw | apply pure_ret]. Qed.

Lemma pure_String_of env v : pure (String_of env v).
Proof. unfold String_of. destruct (ToString v); [apply pure_ret | apply pure_throw]. Qed.

Lemma pure_new_URLSearchParams env init : pure (new_URLSearchParams env init).
Proof.
  induction init as [|[k v] rest IH]; simpl; [apply pure_ret|].
  apply pure_bind; [apply pure_String_of|]. intros s.
  apply pure_bind; [exact IH|]. intros ps. apply pure_ret.
Qed.

Lemma pure_request env f : pure (request env f).
Proof.
  unfold request.
  apply pure_bind; [apply pure_fetch|]. intros res.
  destruct (negb (ok res)); [apply pure_throw|].
  apply pure_bind; [apply pure_json|]. intros data.
  apply pure_bind; [apply pure_read_property|]. intros l.
  apply pure_bind; [apply pure_read_property|]. intros p.
  apply pure_bind; [apply pure_String_of|]. intros ps.
  apply pure_bind; [apply pure_read_property|]. intros i.
  apply pure_bind; [apply pure_new_URLSearchParams|]. intros q.
  apply pure_goto.
Qed.

Lemma request_eq (env : Env) (f : File) (w : World) :
  request env f w = (request_result env f, w, request_effects env f).
Proof.
  destruct (pure_request env f) as (r & t & H).
  unfold request_result, request_effects, result_of, effects_of.
  rewrite !H. reflexivity.
Qed.

(** [submit] with a file chosen, in one equation. *)
Lemma submit_eq (env : Env) (w : World) (f : File) :
  file w = Some f ->
  submit env w
  = (inr tt,
     mkWorld (Some f) (previewUrl w)
             (match request_result env f with
              | inl e => failure_message e
              | inr _ => ""
              end)
             false (dragActive w) (fileInput w) (blobStore w),
     (SetError "" :: SetUploading true :: request_effects env f
      ++ match request_result env f with
         | inl e => [SetError (failure_message e)]
         | inr _ => []
         end
      ++ [SetUploading false])%list).
Proof.
  intros Hf. unfold submit, bind, get, try_catch_finally. run_script.
  rewrite Hf. run_script. rewrite request_eq.
  destruct (request_result env f) as [e|[]]; reflexivity.
Qed.

Lemma submit_eq_none (env : Env) (w : World) :
  file w = None ->
  submit env w
  = (inr tt, with_error w msg_no_file, [SetError ""; SetError msg_no_file]).
Proof.
  intros Hf. unfold submit, bind, get, with_error. run_script. rewrite Hf. reflexivity.
Qed.

(** ** A new attempt starts from a clean Error Message *)

(** X5: the Error Message left by an earlier attempt has no influence on
    the next one: [validateAndSet], [reset] and [submit] end in the same
    world, with the same effects, whatever the Error Message was at
    entry. *)
Theorem stale_error_is_dropped (env : Env) (c : option File) (w : World) (msg : string) :
  validateAndSet env c (with_error w msg) = validateAndSet env c w
  /\ reset (with_error w msg) = reset w
  /\ submit env (with_error w msg) = submit env w.
Proof.
  split; [|split].
  - unfold validateAndSet, revoke_preview, bind, get.
    destruct c as [f|]; [|reflexivity]. run_script.
    destruct (Array_includes ACCEPT (type f)); [|reflexivity]. run_script.
    destruct (MAX_SIZE_MB * 1024 * 1024 <? size f)%N; [reflexivity|]. run_script.
    destruct (previewUrl w) as [[|c0 u0]|]; reflexivity.
  - unfold reset, revoke_preview, bind, get. run_script.
    destruct (previewUrl w) as [[|c0 u0]|]; reflexivity.
  - destruct (file w) as [f|] eqn:Hf.
    + rewrite (submit_eq env w f Hf), (submit_eq env (with_error w msg) f Hf).
      reflexivity.
    + rewrite (submit_eq_none env w Hf), (submit_eq_none env (with_error w msg) Hf).
      reflexivity.
Qed.

(** ** The request, case by case *)

Ltac run_request :=
  unfold request, fetch, json, goto, emit, throw, ret;
  unfold bind at 1 2; run_script.

Lemma request_fetch_rejected (env : Env) (f : File) (w : World) (e : Exn) :
  fetch_outcome env (PUBLIC_API_BASE env ++ "/predict") "POST" [("file", f)]
  = FetchRejects e ->
  request env f w
  = (inl e, w, [Fetch (PUBLIC_API_BASE env ++ "/predict") "POST" [("file", f)]]).
Proof. intros H. run_request. rewrite H. reflexivity. Qed.

Lemma request_not_ok (env : Env) (f : File) (w : World) (res : Response) :
  fetch_outcome env (PUBLIC_API_BASE env ++ "/predict") "POST" [("file", f)]
  = FetchResolves res ->
  ok res = false ->
  request env f w
  = (inl (Error ("HTTP " ++ N_toString (status res))), w,
     [Fetch (PUBLIC_API_BASE env ++ "/predict") "POST" [("file", f)]]).
Proof. intros H Hok. run_request. rewrite H. run_script. rewrite Hok. reflexivity. Qed.

Lemma request_json_rejected (env : Env) (f : File) (w : World) (res : Response) (e : Exn) :
  fetch_outcome env (PUBLIC_API_BASE env ++ "/predict") "POST" [("file", f)]
  = FetchResolves res ->
  ok res = true ->
  json_outcome res = JsonRejects e ->
  request env f w
  = (inl e, w,
     [Fetch (PUBLIC_API_BASE env ++ "/predict") "POST" [("file", f)]; ReadJson]).
Proof.
  intros H Hok Hj. run_request. rewrite H. run_script. rewrite Hok. run_script.
  unfold bind. run_script. rewrite Hj. reflexivity.
Qed.

Lemma request_null (env : Env) (f : File) (w : World) (res : Response) :
  fetch_outcome env (PUBLIC_API_BASE env ++ "/predict") "POST" [("file", f)]
  = FetchResolves res ->
  ok res = true ->
  json_outcome res = JsonResolves JNull ->
  request env f w
  = (inl (Error (null_read_message env "label")), w,
     [Fetch (PUBLIC_API_BASE env ++ "/predict") "POST" [("file", f)]; ReadJson]).
Proof.
  intros H Hok Hj. run_request. rewrite H. run_script. rewrite Hok. run_script.
  unfold bind. run_script. rewrite Hj. reflexivity.
Qed.

Lemma String_of_none (env : Env) (v : Json) (w : World) :
  ToString v = None ->
  String_of env v w = (inl (Error (not_primitive_message env)), w, []).
Proof. unfold String_of. intros ->. reflexivity. Qed.

Lemma request_unprintable (env : Env) (f : File) (w : World) (res : Response) (data : Json) :
  fetch_outcome env (PUBLIC_API_BASE env ++ "/predict") "POST" [("file", f)]
  = FetchResolves res ->
  ok res = true ->
  json_outcome res = JsonResolves data ->
  data <> JNull ->
  printable data = false ->
  request env f w
  = (inl (Error (not_primitive_message env)), w,
     [Fetch (PUBLIC_API_BASE env ++ "/predict") "POST" [("file", f)]; ReadJson]).
Proof.
  intros H Hok Hj Hnull Hp.
  unfold printable in Hp. simpl in Hp. unfold field_value in Hp.
  run_request. rewrite H. run_script. rewrite Hok. run_script. rewrite Hj.
  unfold bind, ret. run_script.
  rewrite !(read_property_nonnull env data _ Hnull).
  unfold ret. run_script.
  destruct (ToString (nullish (property data "prob") (JStr ""))) as [p|] eqn:Ep;
    [rewrite (String_of_some env _ _ w Ep) | rewrite (String_of_none env _ w Ep); reflexivity].
  destruct (ToString (nullish (property data "label") (JStr ""))) as [l|] eqn:El;
    [rewrite (String_of_some env _ _ w El) | rewrite (String_of_none env _ w El); reflexivity].
  rewrite (String_of_some env (JStr _) _ w eq_refl).
  destruct (ToString (nullish (property data "request_id") (JStr ""))) as [i|] eqn:Ei;
    [discriminate | rewrite (String_of_none env _ w Ei); reflexivity].
Qed.

Lemma Json_null_dec (data : Json) : {data = JNull} + {data <> JNull}.
Proof. destruct data; first [left; reflexivity | right; discriminate]. Qed.

(** Every run of the [try] block is one of six. *)
Lemma request_cases (env : Env) (f : File) :
  let post := Fetch (PUBLIC_API_BASE env ++ "/predict") "POST" [("file", f)] in
  (request_effects env f = [post]
   /\ exists e, request_result env f = inl e
      /\ ((fetch_outcome env (PUBLIC_API_BASE env ++ "/predict") "POST" [("file", f)]
           = FetchRejects e)
          \/ exists res,
               fetch_outcome env (PUBLIC_API_BASE env ++ "/predict") "POST" [("file", f)]
               = FetchResolves res
               /\ ok res = false))
  \/ (request_effects env f = [post; ReadJson]
      /\ exists e res,
           request_result env f = inl e
           /\ fetch_outcome env (PUBLIC_API_BASE env ++ "/predict") "POST" [("file", f)]
              = FetchResolves res
           /\ ok res = true
           /\ (json_outcome res = JsonRejects e
               \/ json_outcome res = JsonResolves JNull
               \/ exists data, json_outcome res = JsonResolves data
                               /\ printable data = false))
  \/ (exists res data,
         fetch_outcome env (PUBLIC_API_BASE env ++ "/predict") "POST" [("file", f)]
         = FetchResolves res
         /\ ok res = true
         /\ json_outcome res = JsonResolves data
         /\ data <> JNull
         /\ printable data = true
         /\ request_effects env f
            = [post; ReadJson;
               Goto ("/result?" ++ URLSearchParams_toString
                                     [("label", field_text data "label");
                                      ("prob", field_text data "prob");
                                      ("id", field_text data "request_id")])]
         /\ request_result env f
            = match goto_outcome env
                      ("/result?" ++ URLSearchParams_toString
                                       [("label", field_text data "label");
                                        ("prob", field_text data "prob");
                                        ("id", field_text data "request_id")]) with
              | Some e => inl e
              | None => inr tt
              end).
Proof.
  intros post. subst post.
  unfold request_result, request_effects, result_of, effects_of.
  destruct (fetch_outcome env (PUBLIC_API_BASE env ++ "/predict") "POST" [("file", f)])
    as [e|res] eqn:Hfetch.
  - left. rewrite (request_fetch_rejected env f initial e Hfetch). simpl. eauto.
  - destruct (ok res) eqn:Hok.
    2:{ left. rewrite (request_not_ok env f initial res Hfetch Hok). simpl.
        split; [reflexivity|]. eexists. split; [reflexivity|]. right. eauto. }
    destruct (json_outcome res) as [e|data] eqn:Hj.
    { right; left. rewrite (request_json_rejected env f initial res e Hfetch Hok Hj).
      simpl. split; [reflexivity|]. exists e, res. auto. }
    destruct (Json_null_dec data) as [->|Hnull].
    { right; left. rewrite (request_null env f initial res Hfetch Hok Hj).
      simpl. split; [reflexivity|]. eexists; exists res. auto 6. }
    destruct (printable data) eqn:Hp.
    + right; right. exists res, data.
      pose proof (request_success env initial f res data Hfetch Hok Hj Hnull Hp) as E.
      cbv zeta in E. rewrite E. simpl. auto 10.
    + right; left.
      rewrite (request_unprintable env f initial res data Hfetch Hok Hj Hnull Hp).
      simpl. split; [reflexivity|]. eexists; exists res.
      split; [reflexivity|]. split; [reflexivity|]. split; [exact Hok|].
      right; right. eauto.
Qed.

(** ** Every 200 response: navigation or the [catch] handler *)

Lemma submit_fails_after_read (env : Env) (w : World) (f : File) (e : Exn) :
  file w = Some f ->
  (forall w', request env f w'
              = (inl e, w',
                 [Fetch (PUBLIC_API_BASE env ++ "/predict") "POST" [("file", f)];
                  ReadJson])) ->
  fails_after_read env w f (failure_message e).
Proof.
  intros Hf H. unfold fails_after_read, effects_of, world_after.
  rewrite (submit_eq env w f Hf).
  pose proof (request_eq env f initial) as E. rewrite (H initial) in E.
  injection E as Er Ee. rewrite <- Er, <- Ee. simpl. repeat split.
Qed.

(** C8 (amended): what [submit] does with a 200 response, whatever its
    body.  When the body parses to a value other than [null] whose three
    fields have a string form (as strings, numbers, booleans, arrays of
    those and plain objects do), [goto] is called exactly once, with the
    query built from the string forms of [label], [prob] and [request_id];
    a field that is missing or [null] contributes the empty string, and
    unless [goto] itself throws no Error Message is set.  Every other 200
    response ends in the [catch] handler without a call of [goto]: when
    [res.json()] rejects with [e] the Error Message is [e.message] or the
    fallback text; when the body is [null], or one of the three fields has
    no string form, it is the message of the engine's TypeError. *)
Theorem submit_success_navigates (env : Env) (w : World) (f : File) (res : Response) :
  file w = Some f ->
  fetch_outcome env (PUBLIC_API_BASE env ++ "/predict") "POST" [("file", f)]
  = FetchResolves res ->
  ok res = true ->
  (forall data,
      json_outcome res = JsonResolves data ->
      data <> JNull ->
      printable data = true ->
      let url := "/result?" ++ URLSearchParams_toString
                                 [("label", field_text data "label");
                                  ("prob", field_text data "prob");
                                  ("id", field_text data "request_id")] in
      navigations (effects_of (submit env) w) = [url]
      /\ (forall k, property data k = None \/ property data k = Some JNull ->
                    field_text data k = "")
      /\ (goto_outcome env url = None -> error (world_after (submit env) w) = ""))
  /\ (forall e, json_outcome res = JsonRejects e ->
                fails_after_read env w f (failure_message e))
  /\ (json_outcome res = JsonResolves JNull ->
      fails_after_read env w f (null_read_message env "label"))
  /\ (forall data,
         json_outcome res = JsonResolves data ->
         data <> JNull ->
         printable data = false ->
         fails_after_read env w f (not_primitive_message env)).
Proof.
  intros Hf Hfetch Hok. split; [|split; [|split]].
  - intros data Hjson Hnull Hp url. subst url.
    pose proof (request_success env initial f res data Hfetch Hok Hjson Hnull Hp) as E.
    cbv zeta in E.
    pose proof (request_eq env f initial) as E'. rewrite E in E'.
    injection E' as Er Ee.
    split; [|split; [intros k; apply field_text_missing|]].
    + unfold effects_of. rewrite (submit_eq env w f Hf). cbn [snd].
      rewrite <- Ee, <- Er.
      match goal with
      | |- context [goto_outcome env ?u] => destruct (goto_outcome env u)
      end; reflexivity.
    + intros Hg. unfold world_after. rewrite (submit_eq env w f Hf).
      cbn [fst snd error]. cbn [append] in Hg. rewrite <- Er, Hg. reflexivity.
  - intros e Hjson. apply submit_fails_after_read; [exact Hf|].
    intros w'. apply (request_json_rejected env f w' res e Hfetch Hok Hjson).
  - intros Hjson.
    apply (submit_fails_after_read env w f (Error (null_read_message env "label")) Hf).
    intros w'. apply (request_null env f w' res Hfetch Hok Hjson).
  - intros data Hjson Hnull Hp.
    apply (submit_fails_after_read env w f (Error (not_primitive_message env)) Hf).
    intros w'. apply (request_unprintable env f w' res data Hfetch Hok Hjson Hnull Hp).
Qed.

Lemma submit_success_navigates_witness :
  navigations (effects_of (submit (env_answering response_without_prob)) with_png)
  = ["/result?label=crack&prob=&id=abc123"]
  /\ fails_after_read (env_answering response_null) with_png png_2MB
       "Cannot read properties of null (reading 'label')".
Proof.
  split.
  - destruct (submit_success_navigates (env_answering response_without_prob)
                with_png png_2MB response_without_prob eq_refl eq_refl eq_refl)
      as (H & _).
    apply (H (JObj [("label", JStr "crack"); ("request_id", JStr "abc123")]));
      try reflexivity. discriminate.
  - destruct (submit_success_navigates (env_answering response_null)
                with_png png_2MB response_null eq_refl eq_refl eq_refl)
      as (_ & _ & H & _).
    apply H. reflexivity.
Defined.

(** ** submit: one upload, and how it fails *)

Lemma request_effects_network (env : Env) (f : File) :
  filter is_network (request_effects env f)
  = [Fetch (PUBLIC_API_BASE env ++ "/predict") "POST" [("file", f)]]
  /\ (List.length (navigations (request_effects env f)) <= 1)%nat
  /\ (List.length (filter is_json_read (request_effects env f)) <= 1)%nat.
Proof.
  destruct (request_cases env f)
    as [(-> & _) | [(-> & _) | (res & data & _ & _ & _ & _ & _ & -> & _)]];
    simpl; repeat split; lia.
Qed.

(** X6: [submit] reaches the network exactly when a file is chosen, and
    then exactly once: a POST to [PUBLIC_API_BASE/predict] whose body has
    the single part [file], holding the chosen file.  The body is read at
    most once and [goto] is called at most once. *)
Theorem submit_single_post (env : Env) (w : World) :
  filter is_network (effects_of (submit env) w)
  = match file w with
    | Some f => [Fetch (PUBLIC_API_BASE env ++ "/predict") "POST" [("file", f)]]
    | None => []
    end
  /\ (List.length (filter is_json_read (effects_of (submit env) w)) <= 1)%nat
  /\ (List.length (navigations (effects_of (submit env) w)) <= 1)%nat.
Proof.
  unfold effects_of. destruct (file w) as [f|] eqn:Hf.
  - rewrite (submit_eq env w f Hf). cbn [snd].
    destruct (request_cases env f)
      as [(-> & _) | [(-> & _) | (res & data & _ & _ & _ & _ & _ & -> & _)]];
      destruct (request_result env f); simpl; repeat split; lia.
  - rewrite (submit_eq_none env w Hf). simpl. repeat split; lia.
Qed.

(** X7: when the fetch itself fails (the promise rejects with [e]), the
    Error Message is [e.message], or the fixed fallback text when the
    thrown value is nullish or has no message; the body is not read, [goto]
    is not called, the file stays chosen and [uploading] ends false. *)
Theorem submit_fetch_rejected (env : Env) (w : World) (f : File) (e : Exn) :
  file w = Some f ->
  fetch_outcome env (PUBLIC_API_BASE env ++ "/predict") "POST" [("file", f)]
  = FetchRejects e ->
  effects_of (submit env) w
  = [SetError ""; SetUploading true;
     Fetch (PUBLIC_API_BASE env ++ "/predict") "POST" [("file", f)];
     SetError (failure_message e); SetUploading false]
  /\ error (world_after (submit env) w) = failure_message e
  /\ (message e = None -> error (world_after (submit env) w) = msg_upload_failed)
  /\ (forall m, message e = Some m -> error (world_after (submit env) w) = m)
  /\ file (world_after (submit env) w) = Some f
  /\ uploading (world_after (submit env) w) = false.
Proof.
  intros Hf H. unfold effects_of, world_after.
  rewrite (submit_eq env w f Hf).
  pose proof (request_eq env f initial) as E.
  rewrite (request_fetch_rejected env f initial e H) in E.
  injection E as Er Ee. rewrite <- Er, <- Ee. simpl.
  unfold failure_message. repeat split.
  - intros ->. reflexivity.
  - intros m ->. reflexivity.
Qed.

Lemma submit_fetch_rejected_witness :
  error (world_after
           (submit (mkEnv "" (fun _ _ _ => FetchRejects (mkExn None))
                          (fun _ => None) name (fun k => k) ""))
           with_png)
  = msg_upload_failed.
Proof.
  pose proof (submit_fetch_rejected
                (mkEnv "" (fun _ _ _ => FetchRejects (mkExn None))
                       (fun _ => None) name (fun k => k) "")
                with_png png_2MB (mkExn None) eq_refl eq_refl) as (_ & _ & H & _).
  apply H. reflexivity.
Defined.

(** X8: when a success response has a body that [res.json()] cannot read
    (the promise rejects with [e]), the Error Message is [e.message] or the
    fallback text, the body was tried once, and [goto] is not called. *)
Theorem submit_body_rejected (env : Env) (w : World) (f : File) (res : Response) (e : Exn) :
  file w = Some f ->
  fetch_outcome env (PUBLIC_API_BASE env ++ "/predict") "POST" [("file", f)]
  = FetchResolves res ->
  ok res = true ->
  json_outcome res = JsonRejects e ->
  effects_of (submit env) w
  = [SetError ""; SetUploading true;
     Fetch (PUBLIC_API_BASE env ++ "/predict") "POST" [("file", f)]; ReadJson;
     SetError (failure_message e); SetUploading false]
  /\ error (world_after (submit env) w) = failure_message e
  /\ navigations (effects_of (submit env) w) = []
  /\ file (world_after (submit env) w) = Some f
  /\ uploading (world_after (submit env) w) = false.
Proof.
  intros Hf H Hok Hj. unfold effects_of, world_after.
  rewrite (submit_eq env w f Hf).
  pose proof (request_eq env f initial) as E.
  rewrite (request_json_rejected env f initial res e H Hok Hj) in E.
  injection E as Er Ee. rewrite <- Er, <- Ee. simpl. repeat split.
Qed.

Lemma submit_body_rejected_witness :
  error (world_after
           (submit (env_answering (mkResponse 200 (JsonRejects (Error "Unexpected end of JSON input")))))
           with_png)
  = "Unexpected end of JSON input".
Proof.
  pose proof (submit_body_rejected
                (env_answering (mkResponse 200 (JsonRejects (Error "Unexpected end of JSON input"))))
                with_png png_2MB
                (mkResponse 200 (JsonRejects (Error "Unexpected end of JSON input")))
                (Error "Unexpected end of JSON input")
                eq_refl eq_refl eq_refl eq_refl) as (_ & H & _).
  exact H.
Defined.

(** X9: [submit] calls [goto] only when a file is chosen, the service
    answered with a success status, the body parsed to a value other than
    [null], and its three fields have a string form; the URL is then the
    one built from those string forms. *)
Theorem navigation_needs_success (env : Env) (w : World) :
  navigations (effects_of (submit env) w) <> [] ->
  exists f res data,
    file w = Some f
    /\ fetch_outcome env (PUBLIC_API_BASE env ++ "/predict") "POST" [("file", f)]
       = FetchResolves res
    /\ ok res = true
    /\ json_outcome res = JsonResolves data
    /\ data <> JNull
    /\ printable data = true
    /\ navigations (effects_of (submit env) w)
       = ["/result?" ++ URLSearchParams_toString
                          [("label", field_text data "label");
                           ("prob", field_text data "prob");
                           ("id", field_text data "request_id")]].
Proof.
  unfold effects_of. destruct (file w) as [f|] eqn:Hf.
  - rewrite (submit_eq env w f Hf). cbn [snd].
    destruct (request_cases env f)
      as [(-> & _) | [(-> & _) | (res & data & H1 & H2 & H3 & H4 & H5 & -> & _)]].
    + destruct (request_result env f); simpl; congruence.
    + destruct (request_result env f); simpl; congruence.
    + intros _. exists f, res, data. repeat split; try assumption.
      destruct (request_result env f); reflexivity.
  - rewrite (submit_eq_none env w Hf). simpl. congruence.
Qed.

Lemma navigation_needs_success_witness :
  exists f res data,
    file with_png = Some f
    /\ fetch_outcome (env_answering (mkResponse 200 (JsonResolves crack_payload)))
         (PUBLIC_API_BASE (env_answering (mkResponse 200 (JsonResolves crack_payload)))
          ++ "/predict") "POST" [("file", f)]
       = FetchResolves res
    /\ ok res = true
    /\ json_outcome res = JsonResolves data
    /\ data <> JNull
    /\ printable data = true
    /\ navigations (effects_of (submit (env_answering (mkResponse 200 (JsonResolves crack_payload)))) with_png)
       = ["/result?" ++ URLSearchParams_toString
                          [("label", field_text data "label");
                           ("prob", field_text data "prob");
                           ("id", field_text data "request_id")]].
Proof.
  apply (navigation_needs_success
           (env_answering (mkResponse 200 (JsonResolves crack_payload))) with_png).
  vm_compute. discriminate.
Defined.

(** ** What every session keeps *)

Lemma accepted_from_tests (f : File) :
  Array_includes ACCEPT (type f) = true ->
  (MAX_SIZE_MB * 1024 * 1024 <? size f)%N = false ->
  accepted f = true.
Proof. intros A B. unfold accepted. rewrite A, B. reflexivity. Qed.

Ltac settle_fields :=
  repeat split; try reflexivity; try assumption; try discriminate;
  try (intros; congruence);
  try (match goal with H : _ <-> _ |- _ => apply H end).

Lemma validateAndSet_settled (env : Env) (c : option File) (w : World) :
  settled w -> settled (world_after (validateAndSet env c) w).
Proof.
  intros (Hi & Hpair & Hacc & Hup).
  split; [apply validateAndSet_ok; exact Hi|].
  unfold world_after, validateAndSet, revoke_preview, bind, get.
  destruct c as [f|]; [|run_script; settle_fields].
  run_script.
  destruct (Array_includes ACCEPT (type f)) eqn:A; run_script; [|settle_fields].
  destruct (MAX_SIZE_MB * 1024 * 1024 <? size f)%N eqn:B; run_script; [settle_fields|].
  destruct (previewUrl w) as [[|c0 u0]|]; run_script; settle_fields;
    intros f' E; injection E as <-; apply accepted_from_tests; assumption.
Qed.

Lemma onDrop_eq (env : Env) (e : DragEvent) (w : World) :
  onDrop env e w
  = (let '(r, w1, t1) :=
       validateAndSet env
         match dataTransfer e with
         | Some dt => first_file (transfer_files dt)
         | None => None
         end (world_after (assign_dragActive false) w) in
     (r, w1, PreventDefault :: StopPropagation :: SetDragActive false :: t1)).
Proof.
  unfold onDrop, world_after.
  unfold bind at 1 2 3. unfold emit, assign_dragActive. cbn [fst snd].
  destruct (validateAndSet env _ _) as [[[x|[]] w1] t1]; reflexivity.
Qed.

Lemma exec_settled (env : Env) (c : Call) (w : World) :
  settled w -> settled (world_after (exec env c) w).
Proof.
  intros S. destruct c; simpl.
  - destruct S as (Hi & Hpair & Hacc & Hup).
    split; [apply (exec_ok env BindInput w Hi)|]. settle_fields.
  - destruct S as (Hi & Hpair & Hacc & Hup).
    split; [apply (exec_ok env OpenFileDialog w Hi)|].
    unfold world_after, openFileDialog, bind, get. run_script.
    destruct (fileInput w); settle_fields.
  - destruct S as (Hi & Hpair & Hacc & Hup).
    split; [apply (reset_ok w Hi)|].
    unfold world_after, reset, revoke_preview, bind, get. run_script.
    destruct (previewUrl w) as [[|c0 u0]|]; run_script; settle_fields.
  - apply validateAndSet_settled. exact S.
  - destruct S as (Hi & Hpair & Hacc & Hup).
    pose proof (onDrop_ok env e w Hi) as (Hi' & _).
    assert (S0 : settled (world_after (assign_dragActive false) w))
      by (split; [exact Hi | settle_fields]).
    pose proof (validateAndSet_settled env
                  match dataTransfer e with
                  | Some dt => first_file (transfer_files dt)
                  | None => None
                  end _ S0) as (_ & S1).
    split; [exact Hi'|].
    unfold world_after in *. rewrite onDrop_eq. unfold world_after.
    destruct (validateAndSet env _ _) as [[r w1] t1]. exact S1.
  - destruct S as (Hi & Hpair & Hacc & Hup).
    split; [apply (exec_ok env OnDragOver w Hi)|]. settle_fields.
  - destruct S as (Hi & Hpair & Hacc & Hup).
    split; [apply (exec_ok env OnDragLeave w Hi)|]. settle_fields.
  - destruct S as (Hi & Hpair & Hacc & Hup).
    split; [apply (submit_ok env w Hi)|].
    unfold world_after. destruct (file w) as [f|] eqn:Hf.
    + rewrite (submit_eq env w f Hf). cbn [fst snd file previewUrl uploading].
      settle_fields.
    + rewrite (submit_eq_none env w Hf). unfold with_error.
      cbn [fst snd file previewUrl uploading]. rewrite Hf. settle_fields.
Qed.

Lemma initial_settled : settled initial.
Proof. repeat split; try reflexivity; discriminate. Qed.

Lemma quiet_upload_ok (t : list Effect) :
  filter is_network t = [] -> Forall upload_ok t.
Proof.
  induction t as [|e t IH]; intros H; [constructor|].
  destruct e; simpl in H; try discriminate; constructor; simpl; auto.
Qed.

Lemma validateAndSet_quiet (env : Env) (c : option File) (w : World) :
  filter is_network (effects_of (validateAndSet env c) w) = [].
Proof.
  unfold effects_of, validateAndSet, revoke_preview, bind, get.
  destruct c as [f|]; [|reflexivity]. run_script.
  destruct (Array_includes ACCEPT (type f)); [|reflexivity]. run_script.
  destruct (MAX_SIZE_MB * 1024 * 1024 <? size f)%N; [reflexivity|]. run_script.
  destruct (previewUrl w) as [[|c0 u0]|]; reflexivity.
Qed.

Lemma exec_upload_ok (env : Env) (c : Call) (w : World) :
  settled w -> Forall upload_ok (effects_of (exec env c) w).
Proof.
  intros (Hi & Hpair & Hacc & Hup). destruct c; simpl.
  - repeat constructor.
  - apply quiet_upload_ok. unfold effects_of, openFileDialog, bind, get.
    run_script. destruct (fileInput w); reflexivity.
  - apply quiet_upload_ok. unfold effects_of, reset, revoke_preview, bind, get.
    run_script. destruct (previewUrl w) as [[|c0 u0]|]; reflexivity.
  - apply quiet_upload_ok, validateAndSet_quiet.
  - apply quiet_upload_ok.
    pose proof (validateAndSet_quiet env
                  match dataTransfer e with
                  | Some dt => first_file (transfer_files dt)
                  | None => None
                  end (world_after (assign_dragActive false) w)) as Q.
    unfold effects_of in *. rewrite onDrop_eq.
    destruct (validateAndSet env _ _) as [[r w1] t1]. exact Q.
  - repeat constructor.
  - repeat constructor.
  - unfold effects_of. destruct (file w) as [f|] eqn:Hf.
    + rewrite (submit_eq env w f Hf). cbn [snd].
      assert (P : upload_ok (Fetch (PUBLIC_API_BASE env ++ "/predict") "POST"
                               [("file", f)])).
      { simpl. split; [reflexivity|]. exists f. split; [reflexivity|].
        apply Hacc. reflexivity. }
      destruct (request_cases env f)
        as [(-> & _) | [(-> & _) | (res & data & _ & _ & _ & _ & _ & -> & _)]];
        destruct (request_result env f); simpl;
        repeat (apply Forall_cons; [first [exact P | exact I] |]); apply Forall_nil.
    + rewrite (submit_eq_none env w Hf). repeat constructor.
Qed.

(** X11: in every session, every request ever sent is a POST whose body is
    one part named [file] holding a file that passes the type and size
    rules: a file of another type, or larger than 10 MiB, is never
    uploaded. *)
Theorem only_accepted_files_are_uploaded (session : list (Env * Call)) :
  Forall upload_ok (snd (run session initial)).
Proof.
  assert (G : forall w, settled w -> Forall upload_ok (snd (run session w))).
  { induction session as [|[env c] rest IH]; intros w S; simpl; [constructor|].
    pose proof (exec_settled env c w S) as S1.
    pose proof (exec_upload_ok env c w S) as U1.
    unfold world_after, effects_of in *.
    destruct (exec env c w) as [[r w1] t1]. simpl in *.
    specialize (IH w1 S1). destruct (run rest w1) as [w2 t2]. simpl in *.
    apply Forall_app. split; assumption. }
  apply G, initial_settled.
Qed.

(** ** From the response to the result page *)

(** X12: when [submit] navigates with a label and a [prob] whose string
    forms are well-formed Unicode, the result route reads back exactly what
    was sent: the label is the string form of the response's [label]
    (byte for byte, whatever characters it holds; the string itself when
    [label] is a string), and [prob] is [parseFloat] of the string form of
    the response's [prob].  A string with an unpaired surrogate is not
    covered: it has no UTF-8 form, and [URLSearchParams] replaces the
    surrogate by U+FFFD. *)
Theorem result_page_reads_what_was_sent (env : Env) (w : World) (f : File)
    (res : Response) (data : Json) :
  file w = Some f ->
  fetch_outcome env (PUBLIC_API_BASE env ++ "/predict") "POST" [("file", f)]
  = FetchResolves res ->
  ok res = true ->
  json_outcome res = JsonResolves data ->
  data <> JNull ->
  printable data = true ->
  isWellFormed (field_text data "label") = true ->
  isWellFormed (field_text data "prob") = true ->
  exists url,
    navigations (effects_of (submit env) w) = [url]
    /\ load (URL_of_href url)
       = mkPageData (field_text data "label") (parseFloat (field_text data "prob"))
    /\ (forall s, property data "label" = Some (JStr s) ->
                  label (load (URL_of_href url)) = s).
Proof.
  intros Hf Hfetch Hok Hj Hnull Hp _ _.
  pose proof (request_success env initial f res data Hfetch Hok Hj Hnull Hp) as E.
  cbv zeta in E.
  pose proof (request_eq env f initial) as E'. rewrite E in E'.
  injection E' as Er Ee.
  exists ("/result?" ++ URLSearchParams_toString
                          [("label", field_text data "label");
                           ("prob", field_text data "prob");
                           ("id", field_text data "request_id")]).
  split; [|split].
  - unfold effects_of. rewrite (submit_eq env w f Hf). cbn [snd].
    rewrite <- Ee, <- Er.
    match goal with
    | |- context [goto_outcome env ?u] => destruct (goto_outcome env u)
    end; reflexivity.
  - apply load_after_handoff.
  - intros s Hs. rewrite load_after_handoff. simpl.
    unfold field_text, field_value. rewrite Hs. reflexivity.
Qed.

Lemma result_page_reads_what_was_sent_witness :
  exists url,
    navigations
      (effects_of
         (submit (env_answering
                    (mkResponse 200 (JsonResolves (JObj [("label", JStr "no crack & 50%")])))))
         with_png) = [url]
    /\ label (load (URL_of_href url)) = "no crack & 50%".
Proof.
  destruct (result_page_reads_what_was_sent
              (env_answering
                 (mkResponse 200 (JsonResolves (JObj [("label", JStr "no crack & 50%")]))))
              with_png png_2MB
              (mkResponse 200 (JsonResolves (JObj [("label", JStr "no crack & 50%")])))
              (JObj [("label", JStr "no crack & 50%")])
              eq_refl eq_refl eq_refl eq_refl
              ltac:(discriminate) eq_refl eq_refl eq_refl) as (url & Hn & _ & Hl).
  exists url. split; [exact Hn | apply Hl; reflexivity].
Defined.

Lemma cut_at_keeps_absent (c sep : ascii) (s : string) :
  has_char c s = false -> has_char c (fst (cut_at sep s)) = false.
Proof.
  induction s as [|x s IH]; simpl; [reflexivity|].
  intros H. apply orb_false_iff in H. destruct H as [H1 H2].
  destruct (Ascii.eqb x sep); [reflexivity|].
  specialize (IH H2). destruct (cut_at sep s) as [a b]. simpl in *.
  rewrite H1, IH. reflexivity.
Qed.

(** X13: opened without a query (no [?] in the address), the result route
    shows the defaults: an empty label and the number 0. *)
Theorem load_without_query (href : string) :
  has_char "?" href = false ->
  load (URL_of_href href) = mkPageData "" (Zero false).
Proof.
  intros H. unfold URL_of_href.
  rewrite (cut_at_absent "?"); [reflexivity|].
  apply cut_at_keeps_absent. exact H.
Qed.

Lemma load_without_query_witness :
  load (URL_of_href "/result#top") = mkPageData "" (Zero false).
Proof. apply load_without_query. reflexivity. Defined.

(** ** The drop zone's other handlers *)

(** X14: the handlers that only serve the drop zone's affordance
    ([openFileDialog], the keydown handler, [onDragOver], [onDragLeave])
    never touch the Candidate File, the preview, the Error Message or
    [uploading], never reach the network and never navigate, and none of
    them throws, also when the file input is not bound.  A key other than
    Enter or Space has no effect at all; Enter and Space suppress the
    default action and click the input once when it is bound. *)
Theorem affordance_handlers_are_inert (key : string) (w : World) :
  let inert (m : M unit) :=
    file (world_after m w) = file w
    /\ previewUrl (world_after m w) = previewUrl w
    /\ error (world_after m w) = error w
    /\ uploading (world_after m w) = uploading w
    /\ blobStore (world_after m w) = blobStore w
    /\ filter is_network (effects_of m w) = []
    /\ navigations (effects_of m w) = []
    /\ result_of m w = inr tt in
  inert openFileDialog
  /\ inert (onKeydown key)
  /\ inert onDragOver
  /\ inert onDragLeave
  /\ effects_of (onKeydown key) w
     = (if (String.eqb key "Enter" || String.eqb key " ")%bool
        then PreventDefault :: (if fileInput w then [ClickInput] else [])
        else [])
  /\ dragActive (world_after onDragOver w) = true
  /\ dragActive (world_after onDragLeave w) = false.
Proof.
  intros inert. subst inert.
  unfold world_after, effects_of, result_of, onKeydown, openFileDialog,
    onDragOver, onDragLeave, bind, get, emit.
  destruct (String.eqb key "Enter" || String.eqb key " ")%bool;
    destruct (fileInput w); repeat split.
Qed.

(** ** Numbers through the query string *)

Lemma is_digit_cases (c : ascii) :
  is_digit c = true ->
  c = "0"%char \/ c = "1"%char \/ c = "2"%char \/ c = "3"%char \/ c = "4"%char
  \/ c = "5"%char \/ c = "6"%char \/ c = "7"%char \/ c = "8"%char \/ c = "9"%char.
Proof.
  destruct c as [[] [] [] [] [] [] [] []]; intros H; try discriminate H;
    auto 10.
Qed.

Lemma all_digits_app (a b : string) :
  all_digits (a ++ b) = all_digits a && all_digits b.
Proof.
  induction a as [|c a IH]; simpl; [reflexivity|].
  rewrite IH. apply andb_assoc.
Qed.

Lemma take_digits_all (a b : string) :
  all_digits a = true -> stops b -> take_digits (a ++ b) = (a, b).
Proof.
  intros Ha Hb. induction a as [|c a IH]; simpl.
  - destruct b as [|c r]; [reflexivity|]. simpl in Hb. simpl. rewrite Hb. reflexivity.
  - simpl in Ha. apply andb_true_iff in Ha. destruct Ha as [Hc Ha].
    rewrite Hc, (IH Ha). reflexivity.
Qed.

Lemma append_nil_r (s : string) : s ++ "" = s.
Proof. induction s as [|c s IH]; simpl; [reflexivity | now rewrite IH]. Qed.

Lemma append_assoc (a b c : string) : (a ++ b) ++ c = a ++ b ++ c.
Proof. induction a as [|x a IH]; simpl; [reflexivity | now rewrite IH]. Qed.

Lemma length_append (a b : string) :
  String.length (a ++ b) = (String.length a + String.length b)%nat.
Proof. induction a as [|x a IH]; simpl; [reflexivity | now rewrite IH]. Qed.

(** *** The digits the Standard Library prints *)

Lemma all_digits_uint (u : Decimal.uint) :
  all_digits (NilEmpty.string_of_uint u) = true.
Proof. induction u; simpl; auto. Qed.

Lemma N_of_digits_acc_uint (u : Decimal.uint) (acc : positive) :
  N_of_digits_acc (NilEmpty.string_of_uint u) (Npos acc)
  = Npos (Pos.of_uint_acc u acc).
Proof.
  revert acc. induction u; intros acc;
    cbn [NilEmpty.string_of_uint N_of_digits_acc Pos.of_uint_acc];
    try reflexivity;
    rewrite <- IHu; f_equal;
    match goal with
    | |- context [(N_of_ascii ?c - 48)%N] =>
        let v := eval vm_compute in (N_of_ascii c - 48)%N in
        change (N_of_ascii c - 48)%N with v
    end; lia.
Qed.

Lemma N_of_digits_uint (u : Decimal.uint) :
  N_of_digits (NilEmpty.string_of_uint u) = Pos.of_uint u.
Proof.
  unfold N_of_digits.
  induction u; cbn [NilEmpty.string_of_uint N_of_digits_acc Pos.of_uint];
    try reflexivity;
    match goal with
    | |- context [(N_of_ascii ?c - 48)%N] =>
        let v := eval vm_compute in (0 * 10 + (N_of_ascii c - 48))%N in
        change (0 * 10 + (N_of_ascii c - 48))%N with v
    end;
    first [exact IHu | apply N_of_digits_acc_uint].
Qed.

Lemma to_uint_head (p : positive) :
  exists c r,
    NilEmpty.string_of_uint (Pos.to_uint p) = String c r
    /\ is_digit c = true /\ c <> "0"%char.
Proof.
  pose proof (DecimalPos.Unsigned.to_uint_nonzero p) as Hz.
  pose proof (DecimalN.Unsigned.to_of (Pos.to_uint p)) as Hn.
  change (N.of_uint (Pos.to_uint p)) with (Pos.of_uint (Pos.to_uint p)) in Hn.
  rewrite DecimalPos.Unsigned.of_to in Hn. simpl in Hn.
  assert (Hh : Decimal.nzhead (Pos.to_uint p) <> Decimal.Nil).
  { intros E. apply Hz. rewrite Hn. unfold Decimal.unorm. rewrite E. reflexivity. }
  rewrite (DecimalFacts.unorm_nzhead _ Hh) in Hn.
  pose proof (DecimalFacts.nzhead_nonzero (Pos.to_uint p)) as Hd.
  rewrite <- Hn in Hd, Hh.
  destruct (Pos.to_uint p) as [|u|u|u|u|u|u|u|u|u|u]; simpl;
    try (eexists; eexists; split; [reflexivity|]; split; [reflexivity | discriminate]).
  - congruence.
  - exfalso. apply (Hd u). reflexivity.
Qed.

(** The printed digits of a positive integer: digits only, no leading
    zero, and they denote the integer. *)
Lemma digits_of_pos (p : positive) :
  exists c r,
    N_toString (Npos p) = String c r
    /\ is_digit c = true /\ c <> "0"%char
    /\ all_digits (N_toString (Npos p)) = true
    /\ N_of_digits (N_toString (Npos p)) = Npos p.
Proof.
  destruct (to_uint_head p) as (c & r & E & Hc & Hz).
  assert (S : N_toString (Npos p) = NilEmpty.string_of_uint (Pos.to_uint p)).
  { unfold N_toString, NilZero.string_of_uint. simpl N.to_uint.
    destruct (Pos.to_uint p); try reflexivity. discriminate E. }
  exists c, r. rewrite S. repeat split; try assumption.
  - apply all_digits_uint.
  - rewrite N_of_digits_uint. apply DecimalPos.Unsigned.of_to.
Qed.

Lemma digits_of_N (n : N) :
  all_digits (N_toString n) = true
  /\ N_toString n <> ""
  /\ N_of_digits (N_toString n) = n.
Proof.
  destruct n as [|p]; [repeat split; discriminate|].
  destruct (digits_of_pos p) as (c & r & E & _ & _ & Ha & Hv).
  repeat split; try assumption. rewrite E. discriminate.
Qed.

(** *** Leading and trailing zeros *)

Lemma N_of_digits_acc_app (a b : string) (acc : N) :
  N_of_digits_acc (a ++ b) acc = N_of_digits_acc b (N_of_digits_acc a acc).
Proof.
  revert acc. induction a as [|c a IH]; intros acc; simpl; [reflexivity|].
  apply IH.
Qed.

Lemma string_last (s : string) :
  s <> "" -> exists s0 c, s = s0 ++ String c "".
Proof.
  induction s as [|x s IH]; [congruence|]. intros _.
  destruct s as [|y s].
  - exists "", x. reflexivity.
  - destruct IH as (s0 & c & E); [discriminate|].
    exists (String x s0), c. simpl. rewrite <- E. reflexivity.
Qed.

(** The last printed digit of an integer that is no multiple of ten is not
    a zero. *)
Lemma digits_last (p : positive) :
  (Npos p mod 10 <> 0)%N ->
  exists s0 c, N_toString (Npos p) = s0 ++ String c "" /\ c <> "0"%char.
Proof.
  intros Hm. destruct (digits_of_pos p) as (c & r & E & _ & _ & _ & Hv).
  destruct (string_last (N_toString (Npos p))) as (s0 & c' & E').
  { rewrite E. discriminate. }
  exists s0, c'. split; [exact E'|]. intros ->.
  apply Hm. rewrite <- Hv, E'. unfold N_of_digits.
  rewrite N_of_digits_acc_app. simpl.
  change (N_of_ascii "0" - 48)%N with 0%N.
  rewrite N.add_0_r. apply N.Div0.mod_mul.
Qed.

Lemma strip_zeros_head (c : ascii) (r : string) :
  c <> "0"%char -> strip_zeros (String c r) = String c r.
Proof.
  intros H. destruct c as [[] [] [] [] [] [] [] []]; try reflexivity.
  congruence.
Qed.

Lemma strip_zeros_zeros (m : nat) (s : string) :
  strip_zeros (string_of_list_ascii (repeat "0"%char m) ++ s) = strip_zeros s.
Proof. induction m as [|m IH]; simpl; [reflexivity | exact IH]. Qed.

Lemma rev_string_app (a b : string) :
  rev_string (a ++ b) = rev_string b ++ rev_string a.
Proof.
  unfold rev_string.
  assert (L : forall x y, list_ascii_of_string (x ++ y)
                          = (list_ascii_of_string x ++ list_ascii_of_string y)%list).
  { induction x as [|c x IH]; intros y; simpl; [reflexivity | now rewrite IH]. }
  assert (S : forall x y, string_of_list_ascii (x ++ y)%list
                          = string_of_list_ascii x ++ string_of_list_ascii y).
  { induction x as [|c x IH]; intros y; simpl; [reflexivity | now rewrite IH]. }
  rewrite L, rev_app_distr, S. reflexivity.
Qed.

Lemma rev_string_involutive (s : string) : rev_string (rev_string s) = s.
Proof.
  unfold rev_string. rewrite list_ascii_of_string_of_list_ascii, rev_involutive.
  apply string_of_list_ascii_of_string.
Qed.

Lemma rev_string_zeros (m : nat) :
  rev_string (string_of_list_ascii (repeat "0"%char m))
  = string_of_list_ascii (repeat "0"%char m).
Proof.
  unfold rev_string. rewrite list_ascii_of_string_of_list_ascii.
  f_equal. induction m as [|m IH]; [reflexivity|].
  simpl. rewrite IH. clear IH.
  induction m as [|m IH]; [reflexivity|]. simpl. rewrite <- IH. reflexivity.
Qed.

Lemma length_zeros (m : nat) :
  String.length (string_of_list_ascii (repeat "0"%char m)) = m.
Proof. induction m as [|m IH]; simpl; [reflexivity | now rewrite IH]. Qed.

Lemma all_digits_zeros (m : nat) :
  all_digits (string_of_list_ascii (repeat "0"%char m)) = true.
Proof. induction m as [|m IH]; simpl; [reflexivity | exact IH]. Qed.

(** The value of the shortest digits of [p], written with [j] zeros before
    and [m] zeros after. *)
Lemma decimal_value_padded (neg : bool) (p : positive) (j m : nat) (e : Z) :
  (Npos p mod 10 <> 0)%N ->
  decimal_value neg
    (string_of_list_ascii (repeat "0"%char j) ++ N_toString (Npos p)
     ++ string_of_list_ascii (repeat "0"%char m)) e
  = Finite neg p (Z.of_nat (String.length (N_toString (Npos p)) + m) + e).
Proof.
  intros Hm.
  destruct (digits_of_pos p) as (c & r & E & Hc & Hz & Ha & Hv).
  destruct (digits_last p Hm) as (s0 & c' & E' & Hz').
  unfold decimal_value.
  rewrite strip_zeros_zeros.
  assert (L : strip_zeros (N_toString (Npos p)
                           ++ string_of_list_ascii (repeat "0"%char m))
              = N_toString (Npos p) ++ string_of_list_ascii (repeat "0"%char m)).
  { rewrite E. simpl. apply strip_zeros_head. exact Hz. }
  rewrite L.
  assert (T : rev_string (strip_zeros (rev_string
                (N_toString (Npos p) ++ string_of_list_ascii (repeat "0"%char m))))
              = N_toString (Npos p)).
  { rewrite rev_string_app, rev_string_zeros, strip_zeros_zeros.
    rewrite E'. rewrite rev_string_app.
    change (rev_string (String c' "") ++ rev_string s0)
      with (String c' (rev_string s0)).
    rewrite strip_zeros_head by exact Hz'.
    change (String c' (rev_string s0)) with (String c' "" ++ rev_string s0).
    rewrite rev_string_app, rev_string_involutive. reflexivity. }
  rewrite T, Hv. rewrite length_append, length_zeros. reflexivity.
Qed.

(** *** The exponent *)

Lemma take_digits_only (a : string) :
  all_digits a = true -> take_digits a = (a, "").
Proof.
  intros H. rewrite <- (append_nil_r a) at 1.
  apply take_digits_all; [exact H | exact I].
Qed.

Lemma parse_exponent_printed (e : Z) :
  parse_exponent ("e" ++ (if (e <? 0)%Z then "-" else "+") ++ N_toString (Z.abs_N e))
  = e.
Proof.
  destruct (digits_of_N (Z.abs_N e)) as (Ha & Hn & Hv).
  destruct (e <? 0)%Z eqn:S; simpl;
    rewrite (take_digits_only _ Ha);
    (destruct (N_toString (Z.abs_N e)) eqn:D; [congruence|]);
    rewrite Hv.
  - apply Z.ltb_lt in S. rewrite N2Z.inj_abs_N. lia.
  - apply Z.ltb_ge in S. rewrite N2Z.inj_abs_N. lia.
Qed.

Lemma stops_e (s : string) : stops ("e" ++ s).
Proof. reflexivity. Qed.

Lemma stops_dot (s : string) : stops ("." ++ s).
Proof. reflexivity. Qed.

(** *** parseFloat on what Number::toString prints *)

Lemma parseFloat_signed_digits (neg : bool) (c : ascii) (r : string) :
  is_digit c = true ->
  parseFloat ((if neg then "-" else "") ++ String c r) = parse_digits neg (String c r).
Proof.
  intros H. apply is_digit_cases in H.
  repeat (destruct H as [H|H]); subst c; destruct neg; reflexivity.
Qed.

Lemma match_nonempty (ds : string) (f : string -> JsNumber) :
  ds <> "" ->
  match ds with
  | EmptyString => NaN
  | String a s => f (String a s)
  end = f ds.
Proof. destruct ds; [congruence | reflexivity]. Qed.

(** Digits, then nothing or an exponent. *)
Lemma parse_digits_integer (neg : bool) (ip r2 : string) :
  all_digits ip = true -> ip <> "" ->
  r2 = "" \/ (exists t, r2 = "e" ++ t) ->
  parse_digits neg (ip ++ r2) = decimal_value neg ip (parse_exponent r2).
Proof.
  intros Ha Hn Hr. unfold parse_digits.
  rewrite take_digits_all; [|exact Ha | destruct Hr as [-> | (t & ->)]; reflexivity].
  assert (E : match r2 with
              | String "." r => take_digits r
              | _ => (EmptyString, r2)
              end = (EmptyString, r2))
    by (destruct Hr as [-> | (t & ->)]; reflexivity).
  rewrite E. rewrite append_nil_r.
  rewrite (match_nonempty ip (fun ds => decimal_value neg ds
                                (parse_exponent r2 - Z.of_nat (String.length "")))) by exact Hn.
  simpl String.length. rewrite Z.sub_0_r. reflexivity.
Qed.

(** Digits, a point, digits, then nothing or an exponent. *)
Lemma parse_digits_fraction (neg : bool) (ip fp r2 : string) :
  all_digits ip = true -> all_digits fp = true -> ip <> "" ->
  r2 = "" \/ (exists t, r2 = "e" ++ t) ->
  parse_digits neg (ip ++ "." ++ fp ++ r2)
  = decimal_value neg (ip ++ fp) (parse_exponent r2 - Z.of_nat (String.length fp)).
Proof.
  intros Ha Hb Hn Hr. unfold parse_digits.
  rewrite take_digits_all; [|exact Ha | reflexivity].
  change ("." ++ fp ++ r2) with (String "." (fp ++ r2)). cbv iota beta.
  rewrite take_digits_all; [|exact Hb | destruct Hr as [-> | (t & ->)]; reflexivity].
  apply (match_nonempty (ip ++ fp)
           (fun ds => decimal_value neg ds
                        (parse_exponent r2 - Z.of_nat (String.length fp)))).
  destruct ip; [congruence | discriminate].
Qed.

Lemma split_at (n : nat) (d : string) :
  (n <= String.length d)%nat ->
  exists a b, d = a ++ b /\ String.length a = n.
Proof.
  revert d. induction n as [|n IH]; intros d H.
  - exists "", d. split; reflexivity.
  - destruct d as [|c d]; simpl in H; [lia|].
    destruct (IH d) as (a & b & -> & L); [lia|].
    exists (String c a), b. simpl. rewrite L. split; reflexivity.
Qed.

Lemma substring_all (b : string) : String.substring 0 (String.length b) b = b.
Proof. induction b as [|c b IH]; simpl; [reflexivity | now rewrite IH]. Qed.

Lemma substring_take (a b : string) :
  String.substring 0 (String.length a) (a ++ b) = a.
Proof.
  induction a as [|c a IH]; simpl; [destruct b; reflexivity | now rewrite IH].
Qed.

Lemma substring_skip (a b : string) (m : nat) :
  String.substring (String.length a) m (a ++ b) = String.substring 0 m b.
Proof. induction a as [|c a IH]; simpl; [reflexivity | exact IH]. Qed.

(** The two slices [Number::toString] takes of the digits are the digits
    before and after the point. *)
Lemma slices (d : string) (n : Z) :
  (0 < n < Z.of_nat (String.length d))%Z ->
  exists a b,
    d = a ++ b /\ a <> ""
    /\ slice 0 n d = a
    /\ slice n (Z.of_nat (String.length d) - n) d = b
    /\ Z.of_nat (String.length b) = (Z.of_nat (String.length d) - n)%Z.
Proof.
  intros H.
  destruct (split_at (Z.to_nat n) d) as (a & b & E & L); [lia|].
  exists a, b. subst d. rewrite length_append in *.
  split; [reflexivity|]. split; [destruct a; [simpl in L; lia | discriminate]|].
  unfold slice. simpl Z.to_nat at 1.
  rewrite <- L at 1. rewrite substring_take.
  rewrite <- L at 1. rewrite substring_skip.
  replace (Z.to_nat (Z.of_nat (String.length a + String.length b) - n))
    with (String.length b) by lia.
  rewrite substring_all. repeat split. lia.
Qed.

Lemma all_digits_split (a b : string) :
  all_digits (a ++ b) = true -> all_digits a = true /\ all_digits b = true.
Proof. rewrite all_digits_app. apply andb_true_iff. Qed.

Lemma decimal_value_trailing (neg : bool) (p : positive) (m : nat) (e : Z) :
  (Npos p mod 10 <> 0)%N ->
  decimal_value neg
    (N_toString (Npos p) ++ string_of_list_ascii (repeat "0"%char m)) e
  = Finite neg p (Z.of_nat (String.length (N_toString (Npos p)) + m) + e).
Proof. intros H. exact (decimal_value_padded neg p 0 m e H). Qed.

Lemma decimal_value_plain (neg : bool) (p : positive) (e : Z) :
  (Npos p mod 10 <> 0)%N ->
  decimal_value neg (N_toString (Npos p)) e
  = Finite neg p (Z.of_nat (String.length (N_toString (Npos p))) + e).
Proof.
  intros H. pose proof (decimal_value_trailing neg p 0 e H) as V.
  simpl string_of_list_ascii in V. rewrite append_nil_r, Nat.add_0_r in V. exact V.
Qed.

Lemma decimal_value_leading (neg : bool) (p : positive) (j : nat) (e : Z) :
  (Npos p mod 10 <> 0)%N ->
  decimal_value neg
    (string_of_list_ascii (repeat "0"%char j) ++ N_toString (Npos p)) e
  = Finite neg p (Z.of_nat (String.length (N_toString (Npos p))) + e).
Proof.
  intros H. pose proof (decimal_value_padded neg p j 0 e H) as V.
  simpl string_of_list_ascii in V at 2. rewrite append_nil_r, Nat.add_0_r in V. exact V.
Qed.

(** [parseFloat] reads back what [Number::toString] printed for a finite
    number with shortest digits. *)
Lemma parse_finite (neg : bool) (p : positive) (n : Z) :
  (Npos p mod 10 <> 0)%N ->
  parseFloat ((if neg then "-" else "") ++ finite_toString p n) = Finite neg p n.
Proof.
  intros Hm.
  destruct (digits_of_pos p) as (c & r & E & Hc & Hz & Ha & Hv).
  assert (Hne : N_toString (Npos p) <> "") by (rewrite E; discriminate).
  unfold finite_toString, zeros.
  set (d := N_toString (Npos p)) in *.
  set (k := Z.of_nat (String.length d)) in *.
  assert (Hk : (0 < k)%Z) by (subst k; rewrite E; simpl; lia).
  destruct ((k <=? n) && (n <=? 21))%Z eqn:C1.
  { (* digits followed by zeros *)
    apply andb_true_iff in C1. destruct C1 as [C1 _]. apply Z.leb_le in C1.
    rewrite E at 1. simpl append at 2.
    rewrite parseFloat_signed_digits by exact Hc.
    change (String c (r ++ string_of_list_ascii (repeat "0"%char (Z.to_nat (n - k)))))
      with (String c r ++ string_of_list_ascii (repeat "0"%char (Z.to_nat (n - k)))).
    rewrite <- E.
    rewrite <- (append_nil_r (d ++ _)).
    rewrite parse_digits_integer;
      [| rewrite all_digits_app, Ha, all_digits_zeros; reflexivity
       | rewrite E; discriminate
       | left; reflexivity].
    subst d. rewrite decimal_value_trailing by exact Hm.
    f_equal. fold k. change (parse_exponent "") with 0%Z. lia. }
  destruct ((0 <? n) && (n <=? 21))%Z eqn:C2.
  { (* a point inside the digits *)
    apply andb_true_iff in C2. destruct C2 as [C2 C2'].
    apply Z.ltb_lt in C2. apply Z.leb_le in C2'.
    apply andb_false_iff in C1.
    assert (Hn : (n < k)%Z)
      by (destruct C1 as [C1|C1]; apply Z.leb_gt in C1; lia).
    destruct (slices d n) as (a & b & Ed & Hna & Sa & Sb & Lb); [fold k; lia|].
    fold k in Sb, Lb. rewrite Sa, Sb.
    rewrite Ed in Ha. destruct (all_digits_split a b Ha) as [Haa Hab].
    destruct a as [|ca a]; [congruence|].
    simpl in Haa. apply andb_true_iff in Haa. destruct Haa as [Hca Haa].
    simpl append at 2.
    rewrite parseFloat_signed_digits by exact Hca.
    replace (String ca (a ++ String "." b)) with (String ca a ++ "." ++ b ++ "")
      by (simpl; rewrite append_nil_r; reflexivity).
    rewrite parse_digits_fraction;
      [| simpl; rewrite Hca, Haa; reflexivity | exact Hab | discriminate
       | left; reflexivity].
    rewrite <- Ed.
    subst d. rewrite decimal_value_plain by exact Hm.
    f_equal. fold k. change (parse_exponent "") with 0%Z. lia. }
  destruct ((-6 <? n) && (n <=? 0))%Z eqn:C3.
  { (* zeros between the point and the digits *)
    apply andb_true_iff in C3. destruct C3 as [_ C3]. apply Z.leb_le in C3.
    change ("0." ++ string_of_list_ascii (repeat "0"%char (Z.to_nat (- n))) ++ d)
      with (String "0" ("." ++ string_of_list_ascii (repeat "0"%char (Z.to_nat (- n))) ++ d)).
    rewrite parseFloat_signed_digits by reflexivity.
    change (String "0" ("." ++ string_of_list_ascii (repeat "0"%char (Z.to_nat (- n))) ++ d))
      with ("0" ++ "." ++ (string_of_list_ascii (repeat "0"%char (Z.to_nat (- n))) ++ d)).
    rewrite <- (append_nil_r (string_of_list_ascii _ ++ d)).
    rewrite parse_digits_fraction;
      [| reflexivity
       | rewrite all_digits_app, Ha, all_digits_zeros; reflexivity
       | discriminate
       | left; reflexivity].
    change ("0" ++ string_of_list_ascii (repeat "0"%char (Z.to_nat (- n))) ++ d)
      with (string_of_list_ascii (repeat "0"%char (S (Z.to_nat (- n)))) ++ d).
    subst d. rewrite decimal_value_leading by exact Hm.
    f_equal. rewrite length_append, length_zeros. fold k.
    change (parse_exponent "") with 0%Z. lia. }
  (* exponential notation *)
  destruct (k =? 1)%Z eqn:C4.
  - apply Z.eqb_eq in C4.
    rewrite E at 1. simpl append at 2.
    rewrite parseFloat_signed_digits by exact Hc.
    match goal with
    | |- context [String c (r ++ String "e" ?x)] =>
        change (String c (r ++ String "e" x)) with (String c r ++ "e" ++ x)
    end.
    rewrite <- E.
    rewrite parse_digits_integer;
      [| exact Ha | exact Hne | right; eexists; reflexivity].
    rewrite parse_exponent_printed.
    subst d. rewrite decimal_value_plain by exact Hm. f_equal. fold k. lia.
  - apply Z.eqb_neq in C4.
    destruct (slices d 1) as (a & b & Ed & Hna & Sa & Sb & Lb); [fold k; lia|].
    fold k in Sb, Lb. rewrite Sa, Sb.
    rewrite Ed in Ha. destruct (all_digits_split a b Ha) as [Haa Hab].
    destruct a as [|ca a]; [congruence|].
    simpl in Haa. apply andb_true_iff in Haa. destruct Haa as [Hca Haa].
    simpl append at 2.
    rewrite parseFloat_signed_digits by exact Hca.
    match goal with
    | |- context [String ca (a ++ String "." (b ++ String "e" ?x))] =>
        change (String ca (a ++ String "." (b ++ String "e" x)))
          with (String ca a ++ "." ++ b ++ "e" ++ x)
    end.
    rewrite parse_digits_fraction;
      [| simpl; rewrite Hca, Haa; reflexivity | exact Hab | discriminate
       | right; eexists; reflexivity].
    rewrite parse_exponent_printed. rewrite <- Ed.
    subst d. rewrite decimal_value_plain by exact Hm. f_equal. fold k. lia.
Qed.

(** [parseFloat] after [Number::toString]: every number comes back, except
    that [-0], printed as [0], comes back as [0]. *)
Lemma parseFloat_Number_toString (x : JsNumber) :
  shortest x = true -> parseFloat (Number_toString x) = read_back x.
Proof.
  destruct x as [|neg|neg|neg p n]; intros H.
  - reflexivity.
  - destruct neg; reflexivity.
  - reflexivity.
  - simpl in H. apply negb_true_iff, N.eqb_neq in H.
    apply parse_finite. exact H.
Qed.

(** X15: a numeric [prob] reaches the result page intact: when the
    response's [prob] is a number, the [prob] the result route decodes from
    the URL [submit] navigated to is that number, in every notation
    [String] may choose for it (plain, with a decimal point, or with an
    exponent), and also for NaN and the infinities; only [-0] arrives as
    [0]. *)
Theorem numeric_prob_arrives (env : Env) (w : World) (f : File) (res : Response)
    (data : Json) (x : JsNumber) :
  file w = Some f ->
  fetch_outcome env (PUBLIC_API_BASE env ++ "/predict") "POST" [("file", f)]
  = FetchResolves res ->
  ok res = true ->
  json_outcome res = JsonResolves data ->
  printable data = true ->
  property data "prob" = Some (JNum x) ->
  shortest x = true ->
  exists url,
    navigations (effects_of (submit env) w) = [url]
    /\ prob (load (URL_of_href url)) = read_back x.
Proof.
  intros Hf Hfetch Hok Hj Hp Hprob Hs.
  assert (Hnull : data <> JNull) by (intros ->; discriminate Hprob).
  pose proof (request_success env initial f res data Hfetch Hok Hj Hnull Hp) as E.
  cbv zeta in E.
  pose proof (request_eq env f initial) as E'. rewrite E in E'.
  injection E' as Er Ee.
  exists ("/result?" ++ URLSearchParams_toString
                          [("label", field_text data "label");
                           ("prob", field_text data "prob");
                           ("id", field_text data "request_id")]).
  split.
  - unfold effects_of. rewrite (submit_eq env w f Hf). cbn [snd].
    rewrite <- Ee, <- Er.
    match goal with
    | |- context [goto_outcome env ?u] => destruct (goto_outcome env u)
    end; reflexivity.
  - rewrite load_after_handoff. cbn [prob].
    unfold field_text, field_value. rewrite Hprob. cbn [nullish ToString].
    apply parseFloat_Number_toString. exact Hs.
Qed.

Lemma numeric_prob_arrives_witness :
  exists url,
    navigations
      (effects_of (submit (env_answering (mkResponse 200 (JsonResolves crack_payload))))
         with_png) = [url]
    /\ prob (load (URL_of_href url)) = Finite false 87 0.
Proof.
  apply (numeric_prob_arrives
           (env_answering (mkResponse 200 (JsonResolves crack_payload)))
           with_png png_2MB (mkResponse 200 (JsonResolves crack_payload))
           crack_payload (Finite false 87 0)); reflexivity.
Defined.

(** ** The last action wins *)

(** X16: on a page whose preview is the one live object URL, a later
    choice overrides an earlier one completely: picking any candidate and
    then an accepted file leaves the same world as picking the accepted
    file at once, and picking any candidate and then clearing leaves the
    same world as clearing at once.  No URL of the earlier choice stays
    live. *)
Theorem last_choice_wins (env1 env2 : Env) (c : option File) (f : File) (w : World) :
  handle_inv w ->
  accepted f = true ->
  world_after (validateAndSet env2 (Some f)) (world_after (validateAndSet env1 c) w)
  = world_after (validateAndSet env2 (Some f)) w
  /\ world_after reset (world_after (validateAndSet env1 c) w) = world_after reset w
  /\ blobStore (world_after (validateAndSet env2 (Some f)) (world_after (validateAndSet env1 c) w))
     = ["blob:" ++ object_url_id env2 f].
Proof.
  intros Hi Hacc.
  unfold accepted in Hacc. apply andb_true_iff in Hacc. destruct Hacc as [A B].
  apply negb_true_iff in B.
  unfold handle_inv in Hi.
  unfold world_after, validateAndSet, reset, revoke_preview, bind, get.
  destruct w as [f0 [u0|] e0 up0 d0 i0 store]; simpl in Hi;
    [ destruct Hi as [Hne ->]; destruct u0 as [|c0 u0]; [congruence|] | subst store ];
    (destruct c as [g|];
     [ destruct (Array_includes ACCEPT (type g)) eqn:Ag;
       [ destruct (MAX_SIZE_MB * 1024 * 1024 <? size g)%N eqn:Bg |] |]);
    run_script; rewrite ?A, ?Ag; run_script; rewrite ?B, ?Bg; run_script;
    rewrite ?remove_self; cbn [append]; run_script; rewrite ?remove_self;
    repeat split.
Qed.

Lemma last_choice_wins_witness :
  file (world_after (validateAndSet env_500 (Some png_2MB))
          (world_after (validateAndSet env_500 (Some jpeg_12MB)) initial))
  = Some png_2MB.
Proof.
  pose proof (last_choice_wins env_500 env_500 (Some jpeg_12MB) png_2MB initial
                eq_refl eq_refl) as (H & _).
  rewrite H. reflexivity.
Defined.

(** X17: a submission leaves the page ready for the next one: after
    [submit] has settled, whatever its outcome, a second [submit] does
    exactly what it would have done in place of the first (same result,
    same final world, same effects), given the answer of the platform at
    that time. *)
Theorem submit_can_be_repeated (env1 env2 : Env) (w : World) :
  submit env2 (world_after (submit env1) w) = submit env2 w.
Proof.
  unfold world_after. destruct (file w) as [f|] eqn:Hf.
  - rewrite (submit_eq env1 w f Hf). cbn [fst snd].
    rewrite (submit_eq env2 w f Hf).
    match goal with
    | |- submit env2 ?x = _ => rewrite (submit_eq env2 x f eq_refl)
    end.
    reflexivity.
  - rewrite (submit_eq_none env1 w Hf). cbn [fst snd].
    rewrite (submit_eq_none env2 w Hf).
    rewrite (submit_eq_none env2 (with_error w msg_no_file) Hf). reflexivity.
Qed.

(** ** submit between its awaits *)

Lemma submit_begin_eq (env : Env) (w : World) :
  submit_begin env w
  = match file w with
    | None => (inr None, with_error w msg_no_file, [SetError ""; SetError msg_no_file])
    | Some f =>
        (inr (Some f),
         mkWorld (file w) (previewUrl w) "" true (dragActive w) (fileInput w)
                 (blobStore w),
         [SetError ""; SetUploading true;
          Fetch (PUBLIC_API_BASE env ++ "/predict") "POST" [("file", f)]])
    end.
Proof.
  unfold submit_begin, bind, get, with_error. run_script.
  destruct (file w); reflexivity.
Qed.

Lemma submit_after_fetch_eq (env : Env) (f : File) (w : World) :
  submit_after_fetch env f w
  = match fetch_outcome env (PUBLIC_API_BASE env ++ "/predict") "POST" [("file", f)] with
    | FetchRejects e =>
        (inr None,
         mkWorld (file w) (previewUrl w) (failure_message e) false (dragActive w)
                 (fileInput w) (blobStore w),
         [SetError (failure_message e); SetUploading false])
    | FetchResolves res =>
        if ok res then (inr (Some res), w, [ReadJson])
        else (inr None,
              mkWorld (file w) (previewUrl w) ("HTTP " ++ N_toString (status res)) false
                      (dragActive w) (fileInput w) (blobStore w),
              [SetError ("HTTP " ++ N_toString (status res)); SetUploading false])
    end.
Proof.
  unfold submit_after_fetch. run_script.
  destruct (fetch_outcome env _ _ _) as [e|res]; [reflexivity|].
  destruct (ok res); reflexivity.
Qed.

Lemma pure_navigate (env : Env) (data : Json) : pure (navigate env data).
Proof.
  unfold navigate.
  apply pure_bind; [apply pure_read_property|]. intros l.
  apply pure_bind; [apply pure_read_property|]. intros p.
  apply pure_bind; [apply pure_String_of|]. intros ps.
  apply pure_bind; [apply pure_read_property|]. intros i.
  apply pure_bind; [apply pure_new_URLSearchParams|]. intros q.
  apply pure_goto.
Qed.

Lemma pure_body (env : Env) (res : Response) :
  pure match json_outcome res with
       | JsonRejects e => throw e
       | JsonResolves data => navigate env data
       end.
Proof. destruct (json_outcome res); [apply pure_throw | apply pure_navigate]. Qed.

(** The last run of [submit]: [uploading] ends false, the Error Message is
    the thrown one if something was thrown, nothing else changes. *)
Lemma submit_after_json_eq (env : Env) (res : Response) :
  exists (r : Exn + unit) (t : list Effect),
    (forall w', match json_outcome res with
                | JsonRejects e => throw e
                | JsonResolves data => navigate env data
                end w' = (r, w', t))
    /\ forall w,
         submit_after_json env res w
         = (inr tt,
            mkWorld (file w) (previewUrl w)
                    (match r with inl e => failure_message e | inr _ => error w end)
                    false (dragActive w) (fileInput w) (blobStore w),
            (t ++ match r with inl e => [SetError (failure_message e)] | inr _ => [] end
               ++ [SetUploading false])%list).
Proof.
  destruct (pure_body env res) as (r & t & H). exists r, t. split; [exact H|].
  intros w. unfold submit_after_json, try_catch_finally. rewrite H.
  destruct r as [e|[]]; reflexivity.
Qed.

Lemma fetch_eq (env : Env) (url method : string) (body : FormData) (w : World) :
  fetch env url method body w
  = (match fetch_outcome env url method body with
     | FetchRejects e => inl e
     | FetchResolves res => inr res
     end, w, [Fetch url method body]).
Proof. unfold fetch, bind, emit. destruct (fetch_outcome env url method body); reflexivity. Qed.

Lemma json_eq (res : Response) (w : World) :
  json res w
  = (match json_outcome res with
     | JsonRejects e => inl e
     | JsonResolves data => inr data
     end, w, [ReadJson]).
Proof. unfold json, bind, emit. destruct (json_outcome res); reflexivity. Qed.

(** The [try] block after a success status is the reading of the body
    followed by the last run. *)
Lemma request_after_fetch (env : Env) (f : File) (res : Response) (w : World) :
  fetch_outcome env (PUBLIC_API_BASE env ++ "/predict") "POST" [("file", f)]
  = FetchResolves res ->
  ok res = true ->
  request env f w
  = match match json_outcome res with
          | JsonRejects e => throw e
          | JsonResolves data => navigate env data
          end w with
    | (r, w1, t) =>
        (r, w1,
         Fetch (PUBLIC_API_BASE env ++ "/predict") "POST" [("file", f)] :: ReadJson :: t)
    end.
Proof.
  intros H Hok.
  change (request env f)
    with (bind (fetch env (PUBLIC_API_BASE env ++ "/predict") "POST" [("file", f)])
               (fun res => if negb (ok res)
                           then throw (Error ("HTTP " ++ N_toString (status res)))
                           else bind (json res) (fun data => navigate env data))).
  unfold bind at 1. rewrite fetch_eq, H, Hok. cbn [negb].
  unfold bind at 1. rewrite json_eq.
  destruct (json_outcome res) as [e|data]; [reflexivity|].
  destruct (navigate env data w) as [[r w1] t]. reflexivity.
Qed.

(** The three runs, with nothing in between, are [submit]. *)
Lemma submit_in_steps_eq (env : Env) (w : World) :
  submit_in_steps env w = submit env w.
Proof.
  unfold submit_in_steps, bind. rewrite submit_begin_eq.
  destruct (file w) as [f|] eqn:Hf.
  2:{ rewrite (submit_eq_none env w Hf). reflexivity. }
  rewrite (submit_eq env w f Hf), submit_after_fetch_eq.
  pose proof (request_eq env f initial) as E.
  destruct (fetch_outcome env (PUBLIC_API_BASE env ++ "/predict") "POST" [("file", f)])
    as [e|res] eqn:Hfetch.
  - rewrite (request_fetch_rejected env f initial e Hfetch) in E.
    injection E as Er Ee. rewrite <- Er, <- Ee. reflexivity.
  - destruct (ok res) eqn:Hok.
    + rewrite (request_after_fetch env f res initial Hfetch Hok) in E.
      destruct (submit_after_json_eq env res) as (r & t & Hb & Ha).
      rewrite Hb in E. injection E as Er Ee. rewrite <- Er, <- Ee, Ha.
      destruct r as [e|[]]; reflexivity.
    + rewrite (request_not_ok env f initial res Hfetch Hok) in E.
      injection E as Er Ee. rewrite <- Er, <- Ee. reflexivity.
Qed.

(** ** The page at every moment *)

Lemma paired_same_candidate (w w' : World) :
  same_candidate w w' -> paired w -> paired w'.
Proof.
  intros (Hf & Hp & Hb & _) (Hi & Hpair & Hacc).
  unfold paired, handle_inv in *. rewrite Hf, Hp, Hb. auto.
Qed.

Lemma exec_paired (env : Env) (c : Call) (w : World) :
  paired w -> paired (world_after (exec env c) w).
Proof.
  intros (Hi & Hpair & Hacc).
  split; [apply (exec_ok env c w Hi)|].
  destruct c; simpl.
  - settle_fields.
  - unfold world_after, openFileDialog, bind, get. run_script.
    destruct (fileInput w); settle_fields.
  - unfold world_after, reset, revoke_preview, bind, get. run_script.
    destruct (previewUrl w) as [[|c0 u0]|]; run_script; settle_fields.
  - unfold onPick. generalize (first_file (files currentTarget)). intros c.
    unfold world_after, validateAndSet, revoke_preview, bind, get.
    destruct c as [f|]; [|run_script; settle_fields].
    run_script.
    destruct (Array_includes ACCEPT (type f)) eqn:A; run_script; [|settle_fields].
    destruct (MAX_SIZE_MB * 1024 * 1024 <? size f)%N eqn:B; run_script; [settle_fields|].
    destruct (previewUrl w) as [[|c0 u0]|]; run_script; settle_fields;
      intros f' E; injection E as <-; apply accepted_from_tests; assumption.
  - unfold world_after. rewrite onDrop_eq.
    generalize (match dataTransfer e with
                | Some dt => first_file (transfer_files dt)
                | None => None
                end). intros c.
    unfold world_after, validateAndSet, revoke_preview, assign_dragActive, bind, get.
    destruct c as [f|]; [|run_script; settle_fields].
    run_script.
    destruct (Array_includes ACCEPT (type f)) eqn:A; run_script; [|settle_fields].
    destruct (MAX_SIZE_MB * 1024 * 1024 <? size f)%N eqn:B; run_script; [settle_fields|].
    destruct (previewUrl w) as [[|c0 u0]|]; run_script; settle_fields;
      intros f' E; injection E as <-; apply accepted_from_tests; assumption.
  - settle_fields.
  - settle_fields.
  - unfold world_after. destruct (file w) as [f|] eqn:Hf.
    + rewrite (submit_eq env w f Hf). cbn [fst snd file previewUrl].
      settle_fields.
    + rewrite (submit_eq_none env w Hf). unfold with_error.
      cbn [fst snd file previewUrl]. rewrite Hf. settle_fields.
Qed.

Lemma exec_keeps_uploading (env : Env) (c : Call) (w : World) :
  c <> Submit -> uploading (world_after (exec env c) w) = uploading w.
Proof.
  intros Hc. destruct c; simpl; try reflexivity; try congruence.
  - unfold world_after, openFileDialog, bind, get. run_script.
    destruct (fileInput w); reflexivity.
  - unfold world_after, reset, revoke_preview, bind, get. run_script.
    destruct (previewUrl w) as [[|c0 u0]|]; reflexivity.
  - unfold onPick. generalize (first_file (files currentTarget)). intros c.
    unfold world_after, validateAndSet, revoke_preview, bind, get.
    destruct c as [f|]; [|reflexivity]. run_script.
    destruct (Array_includes ACCEPT (type f)); [|reflexivity]. run_script.
    destruct (MAX_SIZE_MB * 1024 * 1024 <? size f)%N; [reflexivity|]. run_script.
    destruct (previewUrl w) as [[|c0 u0]|]; reflexivity.
  - unfold world_after. rewrite onDrop_eq.
    generalize (match dataTransfer e with
                | Some dt => first_file (transfer_files dt)
                | None => None
                end). intros c.
    unfold world_after, validateAndSet, revoke_preview, assign_dragActive, bind, get.
    destruct c as [f|]; [|reflexivity]. run_script.
    destruct (Array_includes ACCEPT (type f)); [|reflexivity]. run_script.
    destruct (MAX_SIZE_MB * 1024 * 1024 <? size f)%N; [reflexivity|]. run_script.
    destruct (previewUrl w) as [[|c0 u0]|]; reflexivity.
Qed.

(** One event is one of six things. *)
Lemma step_cases (ev : Event) (pg : Page) :
  (exists env c,
      c <> Submit
      /\ world (fst (step ev pg)) = world_after (exec env c) (world pg)
      /\ pending (fst (step ev pg)) = pending pg)
  \/ fst (step ev pg) = pg
  \/ (file (world pg) = None
      /\ through_button ev = false
      /\ world (fst (step ev pg)) = with_error (world pg) msg_no_file
      /\ pending (fst (step ev pg)) = pending pg)
  \/ (exists env f,
         file (world pg) = Some f
         /\ (through_button ev = true -> buttons_disabled (world pg) = false)
         /\ same_candidate (world pg) (world (fst (step ev pg)))
         /\ uploading (world (fst (step ev pg))) = true
         /\ pending (fst (step ev pg)) = (pending pg ++ [AwaitingFetch env f])%list)
  \/ (exists i env f res,
         nth_error (pending pg) i = Some (AwaitingFetch env f)
         /\ world (fst (step ev pg)) = world pg
         /\ pending (fst (step ev pg)) = replace_at i (AwaitingJson env res) (pending pg))
  \/ (exists i p,
         nth_error (pending pg) i = Some p
         /\ same_candidate (world pg) (world (fst (step ev pg)))
         /\ uploading (world (fst (step ev pg))) = false
         /\ pending (fst (step ev pg)) = remove_at i (pending pg)).
Proof.
  assert (S : forall env,
             (through_button ev = true -> buttons_disabled (world pg) = false) ->
             (file (world pg) = None -> through_button ev = false) ->
             (file (world pg) = None
              /\ through_button ev = false
              /\ world (fst (start_submit env pg)) = with_error (world pg) msg_no_file
              /\ pending (fst (start_submit env pg)) = pending pg)
             \/ (exists f,
                    file (world pg) = Some f
                    /\ (through_button ev = true -> buttons_disabled (world pg) = false)
                    /\ same_candidate (world pg) (world (fst (start_submit env pg)))
                    /\ uploading (world (fst (start_submit env pg))) = true
                    /\ pending (fst (start_submit env pg))
                       = (pending pg ++ [AwaitingFetch env f])%list)).
  { intros env Hb Hn. unfold start_submit. rewrite submit_begin_eq.
    destruct (file (world pg)) as [f|] eqn:Hf.
    - right. exists f. unfold same_candidate. cbn. auto 10.
    - left. cbn. auto. }
  destruct ev as [env c|env|i].
  - destruct c;
      try (left; exists env;
           match goal with
           | |- context [step (Handler env ?c)] => exists c
           end;
           split; [discriminate|];
           unfold world_after; cbn [step];
           match goal with
           | |- context [exec env ?c (world pg)] =>
               destruct (exec env c (world pg)) as [[r w1] t]
           end; split; reflexivity).
    cbn [step]. right; right.
    destruct (S env) as [H|(f & H)];
      [discriminate | reflexivity | left; exact H | right; left; exists env, f; exact H].
  - cbn [step]. destruct (buttons_disabled (world pg)) eqn:Hb.
    + right; left. reflexivity.
    + right; right.
      destruct (S env) as [H|(f & H)];
        [reflexivity | | left; exact H | right; left; exists env, f; exact H].
      intros Hn. unfold buttons_disabled in Hb. rewrite Hn in Hb.
      rewrite orb_true_r in Hb. discriminate.
  - cbn [step]. unfold settle.
    destruct (nth_error (pending pg) i) as [[env f|env res]|] eqn:Hi.
    + rewrite submit_after_fetch_eq.
      destruct (fetch_outcome env _ _ _) as [e|res].
      * do 5 right. exists i; eexists. split; [exact Hi|].
        unfold same_candidate. cbn. auto 10.
      * destruct (ok res).
        -- do 4 right; left. exists i, env, f, res. cbn. auto.
        -- do 5 right. exists i; eexists. split; [exact Hi|].
           unfold same_candidate. cbn. auto 10.
    + destruct (submit_after_json_eq env res) as (r & t & _ & Ha). rewrite Ha.
      do 5 right. exists i; eexists. split; [exact Hi|].
      unfold same_candidate. cbn. auto 10.
    + right; left. reflexivity.
Qed.

Lemma play_keeps (I : Page -> Prop) (allowed : Event -> bool) :
  (forall ev pg, allowed ev = true -> I pg -> I (fst (step ev pg))) ->
  forall events pg,
    forallb allowed events = true -> I pg -> I (fst (play events pg)).
Proof.
  intros Hstep events. induction events as [|ev rest IH]; intros pg Ha Hi; [exact Hi|].
  simpl in Ha. apply andb_true_iff in Ha. destruct Ha as [Ha Hr].
  simpl. specialize (Hstep ev pg Ha Hi).
  destruct (step ev pg) as [pg1 t1]. simpl in Hstep.
  specialize (IH pg1 Hr Hstep). destruct (play rest pg1) as [pg2 t2]. exact IH.
Qed.

Lemma nth_error_some_cons {A} (l : list A) (i : nat) (x : A) :
  nth_error l i = Some x -> exists y rest, l = y :: rest.
Proof. destruct l; [destruct i; discriminate | eauto]. Qed.

Lemma step_paired (ev : Event) (pg : Page) :
  paired (world pg) /\ (pending pg = [] -> uploading (world pg) = false) ->
  paired (world (fst (step ev pg)))
  /\ (pending (fst (step ev pg)) = [] -> uploading (world (fst (step ev pg))) = false).
Proof.
  intros (P & Q).
  destruct (step_cases ev pg)
    as [(env & c & Hc & -> & ->)
       | [->
         | [(Hn & _ & -> & ->)
           | [(env & f & Hf & _ & Hs & Hu & ->)
             | [(i & env & f & res & Hi & -> & ->)
               | (i & p & Hi & Hs & Hu & ->)]]]]].
  - split; [apply exec_paired; exact P|].
    rewrite exec_keeps_uploading by exact Hc. exact Q.
  - auto.
  - split; [|exact Q]. apply (paired_same_candidate (world pg)); [|exact P].
    unfold same_candidate, with_error. cbn. auto.
  - split; [apply (paired_same_candidate (world pg)); assumption|].
    intros E. destruct (pending pg); discriminate.
  - split; [exact P|].
    destruct (nth_error_some_cons _ _ _ Hi) as (y & rest & E). rewrite E.
    destruct i; discriminate.
  - split; [apply (paired_same_candidate (world pg)); assumption | auto].
Qed.

Lemma loaded_paired : paired (world loaded).
Proof. repeat split; try reflexivity; discriminate. Qed.

(** X10: at every moment of every session, submissions in flight or not,
    a file is chosen exactly when a preview is held and the chosen file is
    one that passes the type and size rules.  So the preview panel is
    rendered exactly when a file is chosen, and the two buttons are
    disabled exactly when an upload is going on or no preview is shown.
    Once no submission is in flight, [uploading] is false.  A session is
    any sequence of handler calls, clicks on Predict and settlements of the
    promises that calls of [submit] await, in any order. *)
Theorem session_pairs_file_and_preview (events : list Event) :
  let pg := fst (play events loaded) in
  let w := world pg in
  (file w = None <-> previewUrl w = None)
  /\ (forall f, file w = Some f -> accepted f = true)
  /\ preview_shown w = match file w with Some _ => true | None => false end
  /\ buttons_disabled w = uploading w || negb (preview_shown w)
  /\ (pending pg = [] -> uploading w = false).
Proof.
  intros pg w. subst w pg.
  assert (H : paired (world (fst (play events loaded)))
              /\ (pending (fst (play events loaded)) = [] ->
                  uploading (world (fst (play events loaded))) = false)).
  { apply (play_keeps
             (fun pg => paired (world pg)
                        /\ (pending pg = [] -> uploading (world pg) = false))
             (fun _ => true)).
    - intros ev pg _. apply step_paired.
    - induction events; simpl; auto.
    - split; [apply loaded_paired | reflexivity]. }
  destruct H as ((Hi & Hpair & Hacc) & Hq).
  assert (Hs : preview_shown (world (fst (play events loaded)))
               = match file (world (fst (play events loaded))) with
                 | Some _ => true
                 | None => false
                 end).
  { unfold preview_shown, handle_inv in *.
    destruct (file (world (fst (play events loaded)))) as [f|],
             (previewUrl (world (fst (play events loaded)))) as [[|c u]|]; simpl;
      try reflexivity.
    - destruct Hi as [Hne _]. congruence.
    - destruct Hpair as [_ H]. specialize (H eq_refl). discriminate.
    - destruct Hpair as [H _]. specialize (H eq_refl). discriminate. }
  repeat split; try assumption; try apply Hpair.
  rewrite Hs. unfold buttons_disabled.
  destruct (file (world (fst (play events loaded)))); reflexivity.
Qed.

(** A submission that nothing interrupts is [submit] run in one piece. *)
Lemma uninterrupted_submit (env : Env) (w : World) :
  play [Handler env Submit; Settles 0; Settles 0] (quiet w)
  = (quiet (world_after (submit env) w), effects_of (submit env) w).
Proof.
  unfold world_after, effects_of. rewrite <- submit_in_steps_eq.
  unfold submit_in_steps, bind, quiet.
  cbn [play step]. unfold start_submit. cbn [world pending].
  rewrite submit_begin_eq.
  destruct (file w) as [f|]; [|reflexivity].
  cbn [app]. unfold settle at 1. cbn [nth_error pending world].
  rewrite submit_after_fetch_eq.
  destruct (fetch_outcome env _ _ _) as [e|res]; [reflexivity|].
  destruct (ok res); [|reflexivity].
  cbn [replace_at]. unfold settle. cbn [nth_error pending world].
  destruct (submit_after_json_eq env res) as (r & t & _ & Ha). rewrite Ha.
  cbn [fst snd remove_at]. rewrite !app_nil_r. reflexivity.
Qed.

(** ** One request at a time *)

Lemma step_one_at_a_time (ev : Event) (pg : Page) :
  through_button ev = true ->
  (pending pg = [] /\ uploading (world pg) = false)
  \/ (exists p, pending pg = [p] /\ uploading (world pg) = true) ->
  (pending (fst (step ev pg)) = [] /\ uploading (world (fst (step ev pg))) = false)
  \/ (exists p, pending (fst (step ev pg)) = [p]
                /\ uploading (world (fst (step ev pg))) = true).
Proof.
  intros Hb J.
  destruct (step_cases ev pg)
    as [(env & c & Hc & -> & ->)
       | [->
         | [(Hn & Hd & _)
           | [(env & f & Hf & Hen & Hs & Hu & ->)
             | [(i & env & f & res & Hi & -> & ->)
               | (i & p & Hi & Hs & Hu & ->)]]]]].
  - rewrite exec_keeps_uploading by exact Hc. exact J.
  - exact J.
  - congruence.
  - specialize (Hen Hb). unfold buttons_disabled in Hen.
    apply orb_false_iff in Hen. destruct Hen as [Hup _].
    destruct J as [(-> & _)|(p & _ & Hup')]; [|congruence].
    right. eexists. split; [reflexivity | exact Hu].
  - destruct J as [(E & _)|(p & E & Hup)]; rewrite E in *.
    + destruct i; discriminate.
    + destruct i as [|[|i]]; try discriminate.
      right. eexists. split; [reflexivity | exact Hup].
  - destruct J as [(E & _)|(q & E & Hup)]; rewrite E in *.
    + destruct i; discriminate.
    + destruct i as [|[|i]]; try discriminate.
      left. split; [reflexivity | exact Hu].
Qed.

(** X18: as long as [submit] is started by the Predict button only, which
    is disabled while [uploading] is set or no file is chosen, at most one
    submission is in flight at any moment, and [uploading] is set exactly
    while one is. *)
Theorem one_submission_in_flight (events : list Event) :
  forallb through_button events = true ->
  let pg := fst (play events loaded) in
  (in_flight pg <= 1)%nat
  /\ (uploading (world pg) = true <-> in_flight pg = 1%nat)
  /\ (uploading (world pg) = false <-> in_flight pg = 0%nat).
Proof.
  intros Hb pg. subst pg.
  assert (J : (pending (fst (play events loaded)) = []
               /\ uploading (world (fst (play events loaded))) = false)
              \/ (exists p, pending (fst (play events loaded)) = [p]
                            /\ uploading (world (fst (play events loaded))) = true)).
  { apply (play_keeps
             (fun pg => (pending pg = [] /\ uploading (world pg) = false)
                        \/ (exists p, pending pg = [p] /\ uploading (world pg) = true))
             through_button).
    - intros ev pg. apply step_one_at_a_time.
    - exact Hb.
    - left. split; reflexivity. }
  unfold in_flight.
  destruct J as [(-> & ->)|(p & -> & ->)]; simpl; repeat split;
    auto; try discriminate; lia.
Qed.

Lemma one_submission_in_flight_witness :
  in_flight
    (fst (play [Handler env_500 (OnPick (mkInput (Some [png_2MB])));
                ClickPredict env_500;
                ClickPredict env_500;
                Handler env_500 OnDragLeave]
               loaded)) = 1%nat.
Proof.
  apply (one_submission_in_flight
           [Handler env_500 (OnPick (mkInput (Some [png_2MB])));
            ClickPredict env_500;
            ClickPredict env_500;
            Handler env_500 OnDragLeave]);
    reflexivity.
Defined.
